(** * combine_csv_files.py: concatenating a directory of CSV files

    A shallow embedding of [combine_csv_files.py] and the properties of
    its two concatenation strategies, [combine_csv_polars] and
    [combine_csv_pandas], and of its entry point [main].

    Conventions of the embedding.
    - A Python [str] is a [string]; each [ascii] stands for one code
      point below 256.
    - The script runs on a POSIX host: a line ends with LF and nothing
      translates it ([newline=''] on the Polars side).
    - The output file [dataverse_files/combined_data.csv] is the only
      thing the script ever writes; it is the state that is threaded
      through ([None] while the file does not exist).  Everything else the
      script consults or meets (the directory listing, what reading a
      file gives, what goes wrong when its rows are written, the line
      typed at the prompt) never changes during a run and is gathered
      in a [Host], one for each engine.
    - The handle of the Polars strategy has a buffer: an error of a
      write can stay with the handle until the with-block closes it.
    - Console output and file operations are collected, in order, in a
      trace of [event]s. *)

From Stdlib Require Import String Ascii List Bool Arith Lia.
From Stdlib Require Import Permutation Sorted OrdersEx RelationClasses.
Import ListNotations.
Open Scope nat_scope.
Open Scope list_scope.
Open Scope string_scope.

(** ** Python string operations *)

Module PyStr.

Definition LF : ascii := ascii_of_nat 10.

(** [str.isspace] on one code point below 256: TAB, LF, VT, FF, CR,
    the separators 0x1c to 0x1f, the space, NEL (0x85) and the
    no-break space (0xa0). *)
Definition isspace (c : ascii) : bool :=
  let n := nat_of_ascii c in
  (((9 <=? n) && (n <=? 13)) || ((28 <=? n) && (n <=? 32))
   || (n =? 133) || (n =? 160))%nat.

(** [str.lower] on one code point below 256: the ASCII capitals and
    the Latin-1 capitals 0xc0 to 0xde (0xd7, the multiplication sign,
    excepted) move up by 32. *)
Definition lower_char (c : ascii) : ascii :=
  let n := nat_of_ascii c in
  if (((65 <=? n) && (n <=? 90))
      || ((192 <=? n) && (n <=? 222) && negb (n =? 215)))%nat
  then ascii_of_nat (n + 32) else c.

Fixpoint lower (s : string) : string :=
  match s with
  | EmptyString => EmptyString
  | String c s' => String (lower_char c) (lower s')
  end.

(** [s.lstrip()] *)
Fixpoint lstrip (s : string) : string :=
  match s with
  | EmptyString => EmptyString
  | String c s' => if isspace c then lstrip s' else s
  end.

(** [s.rstrip()] *)
Fixpoint rstrip (s : string) : string :=
  match s with
  | EmptyString => EmptyString
  | String c s' =>
      match rstrip s' with
      | EmptyString => if isspace c then EmptyString else String c EmptyString
      | r => String c r
      end
  end.

(** [s.strip()] *)
Definition strip (s : string) : string := rstrip (lstrip s).

(** [s.split('\n')]: never empty, [''.split('\n') == ['']]. *)
Fixpoint split_lines (s : string) : list string :=
  match s with
  | EmptyString => [EmptyString]
  | String c s' =>
      if Ascii.eqb c LF then EmptyString :: split_lines s'
      else match split_lines s' with
           | l :: ls => String c l :: ls
           | [] => [String c EmptyString]
           end
  end.

(** [sep.join(parts)] *)
Fixpoint join (sep : string) (parts : list string) : string :=
  match parts with
  | [] => EmptyString
  | [p] => p
  | p :: rest => p ++ sep ++ join sep rest
  end.

(** [name.endswith(suffix)] *)
Fixpoint endswith (suffix s : string) : bool :=
  (s =? suffix)
  || match s with
     | EmptyString => false
     | String _ s' => endswith suffix s'
     end.

(** Number of bytes of the UTF-8 encoding of [s]. *)
Fixpoint utf8_length (s : string) : nat :=
  match s with
  | EmptyString => 0
  | String c s' => (if (nat_of_ascii c <? 128)%nat then 1 else 2) + utf8_length s'
  end.

(** Some vocabulary for the statements below. *)

Fixpoint has_newline (s : string) : bool :=
  match s with
  | EmptyString => false
  | String c s' => Ascii.eqb c LF || has_newline s'
  end.

Fixpoint all_space (s : string) : bool :=
  match s with
  | EmptyString => true
  | String c s' => isspace c && all_space s'
  end.

(** The string is not empty and its last character is not white. *)
Fixpoint ends_solid (s : string) : bool :=
  match s with
  | EmptyString => false
  | String c EmptyString => negb (isspace c)
  | String _ s' => ends_solid s'
  end.

End PyStr.
Import PyStr.

Definition nl : string := String LF EmptyString.

(** ** Tables *)

(** What [read_csv] returns: the column names and the data rows, every
    cell kept as the text the writer prints for it. *)
Record DataFrame : Type := mkDataFrame {
  columns : list string;
  rows : list (list string)
}.

(** [df.height] (Polars), [len(df)] (Pandas). *)
Definition height (df : DataFrame) : nat := length (rows df).

(** One record of a CSV file without its line terminator.  The cells
    are taken to need no quoting. *)
Definition csv_line (cells : list string) : string := join "," cells.

Definition header_line (df : DataFrame) : string := csv_line (columns df).

Definition row_lines (df : DataFrame) : list string := map csv_line (rows df).

(** Every line followed by LF. *)
Fixpoint terminated (lines : list string) : string :=
  match lines with
  | [] => EmptyString
  | l :: ls => l ++ nl ++ terminated ls
  end.

(** Polars: [df.write_csv()] returns the header and the rows as one
    string; [df.write_csv(f_out)] writes that same text to [f_out]. *)
Definition write_csv (df : DataFrame) : string :=
  header_line df ++ nl ++ terminated (row_lines df).

(** Pandas: the text [df.to_csv(path, index=False, header=...)] writes. *)
Definition to_csv (header : bool) (df : DataFrame) : string :=
  (if header then header_line df ++ nl else EmptyString)
  ++ terminated (row_lines df).

(** ** The host, the trace and the monad *)

(** A Python exception, with the text [str(e)] gives. *)
Inductive Exn : Type := Exception (text : string).

(** A write that the output file cannot take.
    - [error]: the exception of the operating system.
    - [stored]: how many characters of what was to be written are in
      the file all the same.
    - [in_call]: whether the exception is raised by the call that
      writes.  [df.to_csv] opens, writes and closes the file in one
      call, so under Pandas the exception is always raised there and
      this field is not looked at.  The handle of line 42 has a buffer:
      under Polars the exception is raised by the call only when the
      buffer is emptied in it; else the error stays with the handle
      until a later call empties the buffer or the handle is closed. *)
Record Fault : Type := mkFault {
  error : Exn;
  stored : nat;
  in_call : bool
}.

(** What the script finds around it.  A file of the input directory is
    known by its name.  A host describes what one engine meets: two
    engines are compared through two hosts.
    - [listing]: the names in [dataverse_files/xdata], in the order the
      operating system lists them; [None] when the directory is absent.
    - [read_csv]: what the engine of the run, [pl.read_csv] or
      [pd.read_csv], does on a file of that directory: the table, or
      the exception it raises.
    - [write_error]: what goes wrong, if anything, when the rows of
      that file are written to the output.  Under Polars the file that
      is marked is the first whose rows the output file does not take
      in full; a later mark only tells whether the call for that file
      raises.
    - [stdin]: the line typed at the prompt, [None] at end of input.
    That the output file cannot be opened is not part of the model. *)
Record Host : Type := mkHost {
  listing : option (list string);
  read_csv : string -> Exn + DataFrame;
  write_error : string -> option Fault;
  stdin : option string
}.

Inductive engine : Type := Polars | Pandas.

(** The lines the script prints; each stands for the [print] call
    quoted beside it. *)
Inductive message : Type :=
| MsgCombining (n : nat) (e : engine)
    (* print(f"Combining {len(csv_files)} CSV files using Polars...") *)
| MsgOutputFile                 (* print(f"Output file: {output_file}") *)
| MsgRule                       (* print("=" * 60) *)
| MsgReading (i n : nat) (name : string)
    (* print(f"[{i}/{len(csv_files)}] Reading {csv_file.name}...", end=" ") *)
| MsgRowCount (row_count : nat) (* print(f"({row_count:,} rows)") *)
| MsgErrorReading (name : string) (e : Exn)
    (* print(f"  X Error reading {csv_file.name}: {e}") *)
| MsgSuccess (n : nat)
    (* print(f"V Successfully combined {len(csv_files)} files") *)
| MsgTotalRows (total_rows : nat)
    (* print(f"  Total rows: {total_rows:,}") *)
| MsgOutput                     (* print(f"  Output: {output_file}") *)
| MsgNoDirectory
    (* print(f"Error: Directory '{xdata_dir}' does not exist.") *)
| MsgNoCsvFiles                 (* print(f"No CSV files found in '{xdata_dir}'") *)
| MsgCancelled                  (* print("Operation cancelled.") *)
| MsgBlank                      (* print() *)
| MsgFound (n : nat)
    (* print(f"Found {len(csv_files)} CSV file(s) to combine") *)
| MsgUsing (polars : bool)
    (* print(f"Using: {'Polars (high-performance)' if USE_POLARS
                        else 'Pandas (standard)'}") *)
| MsgFailed (e : Exn)
    (* print(f"\nX Failed to combine CSV files: {e}") *)
| MsgOutputSize (bytes : nat)
    (* print(f"  Output size: {output_size:.2f} MB") *)
| MsgPolarsNotFound
    (* print("Warning: Polars not found. Install with: pip install polars") *)
| MsgFallingBack                (* print("Falling back to pandas...") *)
| MsgNoEngine.
    (* print("Error: Neither polars nor pandas is installed.") and the
       two lines of advice after it *)

Inductive event : Type :=
| Print (m : message)
| Ask                           (* input(...): the overwrite question *)
| OpenW                         (* open(output_file, 'w', newline='') *)
| Read (name : string)          (* read_csv(csv_file) *)
| Write (data : string)         (* a write through the open handle *)
| ToCsv (append : bool) (data : string).
    (* df.to_csv(output_file, mode='w') or (..., mode='a') *)

(** How a computation ends: normally, with an exception under way, or
    with [SystemExit] under way ([except Exception] does not catch it). *)
Inductive outcome (A : Type) : Type :=
| Normal (a : A)
| Raised (e : Exn)
| Exited (status : nat).
Arguments Normal {A} a.
Arguments Raised {A} e.
Arguments Exited {A} status.

(** The result of running a computation from a given output file. *)
Record run (A : Type) : Type := mkRun {
  result : outcome A;
  output : option string;
  trace : list event
}.
Arguments mkRun {A} result output trace.
Arguments result {A} r.
Arguments output {A} r.
Arguments trace {A} r.

Definition M (A : Type) : Type := option string -> run A.

Definition ret {A} (a : A) : M A := fun out => mkRun (Normal a) out [].

Definition bind {A B} (m : M A) (k : A -> M B) : M B :=
  fun out =>
    match m out with
    | mkRun (Normal a) out' tr =>
        match k a out' with
        | mkRun res out'' tr' => mkRun res out'' (tr ++ tr')%list
        end
    | mkRun (Raised e) out' tr => mkRun (Raised e) out' tr
    | mkRun (Exited status) out' tr => mkRun (Exited status) out' tr
    end.

Notation "x <- m ;; k" := (bind m (fun x => k))
  (at level 61, m at next level, right associativity).
Notation "m ;; k" := (bind m (fun _ => k))
  (at level 61, right associativity).

(** [raise e] *)
Definition raise {A} (e : Exn) : M A := fun out => mkRun (Raised e) out [].

(** [sys.exit(status)] *)
Definition sys_exit {A} (status : nat) : M A :=
  fun out => mkRun (Exited status) out [].

(** [try: m  except Exception as e: handler e] *)
Definition try_except {A} (m : M A) (handler : Exn -> M A) : M A :=
  fun out =>
    match m out with
    | mkRun (Raised e) out' tr =>
        match handler e out' with
        | mkRun res out'' tr' => mkRun res out'' (tr ++ tr')%list
        end
    | r => r
    end.

Definition emit (ev : event) : M unit := fun out => mkRun (Normal tt) out [ev].

Definition print (m : message) : M unit := emit (Print m).

(** [output_file.exists()] *)
Definition output_exists : M bool :=
  fun out =>
    mkRun (Normal match out with Some _ => true | None => false end) out [].

(** [output_file.stat().st_size] *)
Definition stat_size : M nat :=
  fun out =>
    match out with
    | Some text => mkRun (Normal (utf8_length text)) out []
    | None =>
        mkRun (Raised (Exception "[Errno 2] No such file or directory: 'dataverse_files/combined_data.csv'"))
              out []
    end.

(** [input(...)] *)
Definition input (h : Host) : M string :=
  emit Ask ;;
  match stdin h with
  | Some line => ret line
  | None => raise (Exception "EOF when reading a line")
  end.

(** [open(output_file, 'w', newline='')]: the file is created or
    emptied at once. *)
Definition open_w : M unit := fun _ => mkRun (Normal tt) (Some EmptyString) [OpenW].

(** Text added at the end of the output file. *)
Definition appended (out : option string) (data : string) : option string :=
  match out with
  | Some text => Some (text ++ data)
  | None => Some data
  end.

(** The state of the handle [f_out]: the error its buffer holds back,
    if any.  Once the handle holds an error back, nothing more reaches
    the file. *)
Definition handle : Type := option Exn.

(** What a write through [f_out] puts in the file. *)
Definition reaches (f_out : handle) (out : option string) (data : string)
    : option string :=
  match f_out with
  | None => appended out data
  | Some _ => out
  end.

(** A write through [f_out] while the rows of [csv_file] are handled:
    [df.write_csv(f_out)] and [f_out.write(...)].  The new state of the
    handle is returned.  The trace has the calls that return. *)
Definition f_out_write (h : Host) (csv_file : string) (data : string)
    (f_out : handle) : M handle :=
  match write_error h csv_file with
  | None => fun out => mkRun (Normal f_out) (reaches f_out out data) [Write data]
  | Some fault =>
      fun out =>
        let out' := reaches f_out out (substring 0 (stored fault) data) in
        if in_call fault then mkRun (Raised (error fault)) out' []
        else mkRun (Normal (Some match f_out with
                                 | Some held => held
                                 | None => error fault
                                 end)) out' [Write data]
  end.

(** [f_out.close()]: the buffer is emptied, and the error it held back
    is raised. *)
Definition close (f_out : handle) : M unit :=
  match f_out with
  | None => ret tt
  | Some e => raise e
  end.

(** [df.to_csv(output_file, index=False, mode=..., header=...)]:
    mode ['w'] replaces the file, mode ['a'] adds at its end.  The file
    is opened, written and closed in the call.  The trace has the calls
    that return. *)
Definition df_to_csv (h : Host) (csv_file : string) (append : bool)
    (data : string) : M unit :=
  fun out =>
    match write_error h csv_file with
    | Some fault =>
        let part := substring 0 (stored fault) data in
        mkRun (Raised (error fault))
              (if append then appended out part else Some part) []
    | None =>
        mkRun (Normal tt) (if append then appended out data else Some data)
              [ToCsv append data]
    end.

(** [pl.read_csv(csv_file)], [pd.read_csv(csv_file, low_memory=False)] *)
Definition do_read_csv (h : Host) (csv_file : string) : M DataFrame :=
  emit (Read csv_file) ;;
  match read_csv h csv_file with
  | inr df => ret df
  | inl e => raise e
  end.

(** The status the process ends with: 0 when the script runs to its
    end, the argument of [sys.exit], 1 after an uncaught exception. *)
Definition exit_status {A} (o : outcome A) : nat :=
  match o with
  | Normal _ => 0
  | Raised _ => 1
  | Exited status => status
  end.

(** ** The two concatenation strategies *)

Open Scope list_scope.
Open Scope nat_scope.

(** Lines 60 to 63: what is written for a file after the first. *)
Definition polars_rest (df : DataFrame) : string :=
  let csv_string := write_csv df in
  let lines := split_lines (strip csv_string) in
  (join nl (skipn 1 lines) ++ nl)%string.

(** Lines 44 to 70: the body of the loop of [combine_csv_polars], with
    [n = len(csv_files)]; the new value of [total_rows] and the new
    state of [f_out] are returned. *)
Definition polars_step (h : Host) (n i : nat) (csv_file : string)
    (total_rows : nat) (f_out : handle) : M (nat * handle) :=
  print (MsgReading i n csv_file) ;;
  try_except
    (df <- do_read_csv h csv_file ;;
     let row_count := height df in
     let total_rows := total_rows + row_count in
     print (MsgRowCount row_count) ;;
     f_out <-
       (if i =? 1 then f_out_write h csv_file (write_csv df) f_out
        else f_out_write h csv_file (polars_rest df) f_out) ;;
     ret (total_rows, f_out))
    (fun e => print (MsgErrorReading csv_file e) ;; raise e).

(** The inside of [with open(...) as f_out:], from index [i] of
    [for i, csv_file in enumerate(csv_files, 1)] on.  The with-block
    closes the handle when it is left: at the end of the loop, and when
    an exception leaves the body of the loop, in which case an error of
    the close takes the place of that exception. *)
Fixpoint polars_loop (h : Host) (n i : nat) (csv_files : list string)
    (total_rows : nat) (f_out : handle) : M nat :=
  match csv_files with
  | [] => close f_out ;; ret total_rows
  | csv_file :: later =>
      st <- try_except (polars_step h n i csv_file total_rows f_out)
                       (fun e => close f_out ;; raise e) ;;
      polars_loop h n (S i) later (fst st) (snd st)
  end.

Definition combine_csv_polars (h : Host) (csv_files : list string) : M unit :=
  let n := length csv_files in
  print (MsgCombining n Polars) ;;
  print MsgOutputFile ;;
  print MsgRule ;;
  total_rows <- (open_w ;; polars_loop h n 1 csv_files 0 None) ;;
  print MsgRule ;;
  print (MsgSuccess n) ;;
  print (MsgTotalRows total_rows) ;;
  print MsgOutput.

(** Lines 94 to 118: the body of the loop of [combine_csv_pandas]; the
    new values of [total_rows] and [first_file] are returned. *)
Definition pandas_step (h : Host) (n i : nat) (csv_file : string)
    (total_rows : nat) (first_file : bool) : M (nat * bool) :=
  print (MsgReading i n csv_file) ;;
  try_except
    (df <- do_read_csv h csv_file ;;
     let row_count := height df in
     let total_rows := total_rows + row_count in
     print (MsgRowCount row_count) ;;
     first_file <-
       (if first_file
        then df_to_csv h csv_file false (to_csv true df) ;; ret false
        else df_to_csv h csv_file true (to_csv false df) ;; ret first_file) ;;
     ret (total_rows, first_file))
    (fun e => print (MsgErrorReading csv_file e) ;; raise e).

Fixpoint pandas_loop (h : Host) (n i : nat) (csv_files : list string)
    (total_rows : nat) (first_file : bool) : M nat :=
  match csv_files with
  | [] => ret total_rows
  | csv_file :: later =>
      st <- pandas_step h n i csv_file total_rows first_file ;;
      pandas_loop h n (S i) later (fst st) (snd st)
  end.

Definition combine_csv_pandas (h : Host) (csv_files : list string) : M unit :=
  let n := length csv_files in
  print (MsgCombining n Pandas) ;;
  print MsgOutputFile ;;
  print MsgRule ;;
  total_rows <- pandas_loop h n 1 csv_files 0 true ;;
  print MsgRule ;;
  print (MsgSuccess n) ;;
  print (MsgTotalRows total_rows) ;;
  print MsgOutput.

(** ** The entry point *)

(** [xdata_dir.glob("*.csv")]: the names of the listing that end in
    [.csv], in the order of the listing. *)
Definition glob_csv (names : list string) : list string :=
  filter (endswith ".csv") names.

(** [sorted(...)]: paths of one directory compare as their names do,
    code point by code point; the sort is stable. *)
Fixpoint insert_sorted (x : string) (l : list string) : list string :=
  match l with
  | [] => [x]
  | y :: t => if (y <? x)%string then y :: insert_sorted x t else x :: y :: t
  end.

Fixpoint sorted (l : list string) : list string :=
  match l with
  | [] => []
  | x :: t => insert_sorted x (sorted t)
  end.

Definition main (USE_POLARS : bool) (h : Host) : M unit :=
  match listing h with
  | None => print MsgNoDirectory ;; sys_exit 1
  | Some names =>
      let csv_files := sorted (glob_csv names) in
      match csv_files with
      | [] => print MsgNoCsvFiles ;; sys_exit 1
      | _ :: _ =>
          present <- output_exists ;;
          (if present
           then response <- input h ;;
                if negb (lower response =? "y")%string
                then print MsgCancelled ;; sys_exit 0
                else print MsgBlank
           else ret tt) ;;
          print (MsgFound (length csv_files)) ;;
          print (MsgUsing USE_POLARS) ;;
          print MsgBlank ;;
          try_except
            (if USE_POLARS
             then combine_csv_polars h csv_files
             else combine_csv_pandas h csv_files)
            (fun e => print (MsgFailed e) ;; sys_exit 1) ;;
          output_size <- stat_size ;;
          print (MsgOutputSize output_size)
      end
  end.

(** Lines 11 to 24 and 171 to 172: the imports choose the engine, then
    [main] runs. *)
Definition import_engine (polars_installed pandas_installed : bool) : M bool :=
  if polars_installed then ret true
  else print MsgPolarsNotFound ;;
       print MsgFallingBack ;;
       if pandas_installed then ret false
       else print MsgNoEngine ;; sys_exit 1.

Definition script (polars_installed pandas_installed : bool) (h : Host) : M unit :=
  USE_POLARS <- import_engine polars_installed pandas_installed ;;
  main USE_POLARS h.

(** ** Sample hosts *)

Module Sample.

(** Three files of one schema, the second with its header only; any
    other name cannot be read. *)
Definition a_csv : DataFrame := mkDataFrame ["id"; "val"] [["1"; "x"]; ["2"; "y"]].
Definition b_csv : DataFrame := mkDataFrame ["id"; "val"] [].
Definition c_csv : DataFrame := mkDataFrame ["id"; "val"] [["3"; "z"]].

Definition disk (name : string) : Exn + DataFrame :=
  if (name =? "a.csv")%string then inr a_csv
  else if (name =? "b.csv")%string then inr b_csv
  else if (name =? "c.csv")%string then inr c_csv
  else inl (Exception "cannot read").

(** Every write succeeds. *)
Definition writable (name : string) : option Fault := None.

(** The directory holds [names]; [line] is typed at the prompt. *)
Definition host (names : list string) (line : option string) : Host :=
  mkHost (Some names) disk writable line.

End Sample.

(** A host whose output file takes the rows of [a.csv] and then one
    character more: the write of the rows of [c.csv] meets a full disk. *)
Module FullDisk.

Definition e_csv : DataFrame := mkDataFrame ["id"; "val"] [["4"; "w"]].

Definition disk (name : string) : Exn + DataFrame :=
  if (name =? "e.csv")%string then inr e_csv else Sample.disk name.

Definition no_space : Exn := Exception "[Errno 28] No space left on device".

(** The error of the write for [c.csv]; [held] tells whether the
    handle of the Polars strategy holds it back. *)
Definition write_error (held : bool) (name : string) : option Fault :=
  if (name =? "c.csv")%string then Some (mkFault no_space 1 (negb held)) else None.

Definition host (held : bool) (names : list string) (line : option string) : Host :=
  mkHost (Some names) disk (write_error held) line.

End FullDisk.

(** One directory as the two engines meet it: the files of [Sample]
    print the same under both, and each engine has its own exception
    for a file it cannot read. *)
Module TwoEngines.





End TwoEngines.

(** ** What the claims speak of *)

(** The file can be read and its rows can be written. *)
Definition sound (h : Host) (name : string) : Prop :=
  (exists df, read_csv h name = inr df) /\ write_error h name = None.

(** The exception that the handling of the file raises inside the
    [try] of the loop, if any: the one of the read, else the one of the
    write when the call that writes raises it. *)
Definition raised_in_step (USE_POLARS : bool) (h : Host) (name : string)
    : option Exn :=
  match read_csv h name with
  | inl e => Some e
  | inr _ =>
      match write_error h name with
      | Some fault =>
          if USE_POLARS && negb (in_call fault) then None else Some (error fault)
      | None => None
      end
  end.

(** The table of a file, empty if it cannot be read. *)
Definition table (h : Host) (name : string) : DataFrame :=
  match read_csv h name with
  | inr df => df
  | inl _ => mkDataFrame [] []
  end.

(** The sum of the row counts of the files. *)
Definition total_height (h : Host) (names : list string) : nat :=
  list_sum (map (fun name => height (table h name)) names).

(** The data rows of all the files, file after file. *)
Definition all_rows (h : Host) (names : list string) : list string :=
  flat_map (fun name => row_lines (table h name)) names.

(** The combined file as the specification describes it: the header
    line of the first file once, then the data rows of every file in
    the order of the files. *)
Definition concatenation (h : Host) (names : list string) : string :=
  match names with
  | [] => EmptyString
  | first :: _ =>
      (header_line (table h first) ++ nl ++ terminated (all_rows h names))%string
  end.

(** The records of a text file: its lines, the empty piece after a
    final LF left out. *)
Definition records (text : string) : list string :=
  let lines := split_lines text in
  match last lines EmptyString with
  | EmptyString => removelast lines
  | _ => lines
  end.

(** The records after the header line. *)
Definition data_rows (text : string) : list string := skipn 1 (records text).

(** The files the run has read, in order. *)
Fixpoint reads (tr : list event) : list string :=
  match tr with
  | [] => []
  | Read name :: tr' => name :: reads tr'
  | _ :: tr' => reads tr'
  end.

(** The run has touched the output file. *)
Definition touches (ev : event) : bool :=
  match ev with
  | OpenW | Write _ | ToCsv _ _ => true
  | _ => false
  end.

(** The event belongs to the summary of a successful run. *)
Definition is_summary (ev : event) : bool :=
  match ev with
  | Print (MsgSuccess _) | Print (MsgTotalRows _) | Print (MsgOutputSize _) => true
  | _ => false
  end.

(** A table the header suppression of the Polars strategy leaves
    intact: the header line has no line break and is not blank, there
    is a data row, and the last one ends with a character that is not
    white. *)
Definition tidy (df : DataFrame) : bool :=
  negb (has_newline (header_line df))
  && negb (all_space (header_line df))
  && ends_solid (last (row_lines df) EmptyString).

(** The data rows of the output file a run leaves. *)
Definition output_rows {A} (r : run A) : list string :=
  match output r with
  | Some text => data_rows text
  | None => []
  end.

(** The row count that is printed before a write fails. *)
Definition counted (h : Host) (name : string) : list event :=
  match read_csv h name with
  | inr df => [Print (MsgRowCount (height df))]
  | inl _ => []
  end.

(** The lines printed after the loop, when it ends normally. *)
Definition summary_of (n : nat) (o : outcome nat) : list event :=
  match o with
  | Normal total_rows =>
      [Print MsgRule; Print (MsgSuccess n); Print (MsgTotalRows total_rows);
       Print MsgOutput]
  | _ => []
  end.

(** The way a strategy ends, given the way its loop ends. *)
Definition settle {A} (o : outcome A) : outcome unit :=
  match o with
  | Normal _ => Normal tt
  | Raised e => Raised e
  | Exited status => Exited status
  end.

(** What is printed and asked before the strategy starts. *)
Definition opening (USE_POLARS : bool) (n : nat) (out : option string) : list event :=
  match out with
  | Some _ => [Ask; Print MsgBlank]
  | None => []
  end ++ [Print (MsgFound n); Print (MsgUsing USE_POLARS); Print MsgBlank].

(** The text the Polars strategy writes for the file of index [i]. *)
Definition polars_data (i : nat) (df : DataFrame) : string :=
  if i =? 1 then write_csv df else polars_rest df.

(** What the output file takes of [data] written for the file. *)
Definition taken (h : Host) (name data : string) : string :=
  match write_error h name with
  | Some fault => substring 0 (stored fault) data
  | None => data
  end.

(** The state of the handle after the write for the file. *)
Definition held_back (h : Host) (name : string) (f_out : handle) : handle :=
  match write_error h name with
  | Some fault => Some match f_out with
                       | Some e => e
                       | None => error fault
                       end
  | None => f_out
  end.

(** The output file after the turn of the Polars loop for the file. *)
Definition polars_left (h : Host) (i : nat) (name : string) (f_out : handle)
    (out : option string) : option string :=
  match read_csv h name with
  | inl _ => out
  | inr df => reaches f_out out (taken h name (polars_data i df))
  end.

(** The output file after the turn of the Pandas loop for the file. *)
Definition pandas_left (h : Host) (name : string) (first_file : bool)
    (out : option string) : option string :=
  match read_csv h name with
  | inl _ => out
  | inr df =>
      let part := taken h name (to_csv first_file df) in
      if first_file then Some part else appended out part
  end.

(** The exception that leaves the with-block when [e] leaves the body
    of the loop. *)
Definition leaving (f_out : handle) (e : Exn) : Exn :=
  match f_out with
  | Some held => held
  | None => e
  end.



(** The event is a diagnostic of the loop, [Error reading ...]. *)
Definition is_diagnostic (ev : event) : bool :=
  match ev with
  | Print (MsgErrorReading _ _) => true
  | _ => false
  end.

(** The turn of the file raises inside the [try] of the loop. *)
Definition stops (USE_POLARS : bool) (h : Host) (name : string) : bool :=
  match raised_in_step USE_POLARS h name with
  | Some _ => true
  | None => false
  end.

(** The names up to the first that [p] holds of, that one included. *)
Fixpoint through_first (p : string -> bool) (names : list string) : list string :=
  match names with
  | [] => []
  | name :: later => name :: (if p name then [] else through_first p later)
  end.


(** The progress lines of a run: for each [[i/n] Reading name...] the
    index, the total and the name. *)
Fixpoint readings (tr : list event) : list (nat * nat * string) :=
  match tr with
  | [] => []
  | Print (MsgReading i n name) :: tr' => (i, n, name) :: readings tr'
  | _ :: tr' => readings tr'
  end.

(** The progress lines [enumerate(csv_files, i)] gives for [names],
    with [n] as the total. *)
Fixpoint enumerated (n i : nat) (names : list string) : list (nat * nat * string) :=
  match names with
  | [] => []
  | name :: later => (i, n, name) :: enumerated n (S i) later
  end.

(** The event is the overwrite question. *)
Definition is_ask (ev : event) : bool :=
  match ev with
  | Ask => true
  | _ => false
  end.

(** The row counts printed file by file. *)
Fixpoint row_counts (tr : list event) : list nat :=
  match tr with
  | [] => []
  | Print (MsgRowCount k) :: tr' => k :: row_counts tr'
  | _ :: tr' => row_counts tr'
  end.

(** Either strategy, by the value of [USE_POLARS]. *)
Definition strategy (USE_POLARS : bool) (h : Host) (csv_files : list string) : M unit :=
  if USE_POLARS then combine_csv_polars h csv_files
  else combine_csv_pandas h csv_files.


(** What holds of a run of one of the loops, whatever the host: the
    files read are the first files of the list, all of them when the
    loop ends normally; the loop ends normally only if every file is
    read and written, and then returns the sum of the row counts, which
    it has printed one by one; it never exits; each progress line
    carries the position of its file; nothing is asked. *)
Definition loop_shape (h : Host) (n i : nat) (csv_files : list string)
    (total_rows : nat) (r : run nat) : Prop :=
  (exists rest, csv_files = reads (trace r) ++ rest
                /\ (forall t, result r = Normal t -> rest = []))
  /\ match result r with
     | Normal t =>
         Forall (sound h) csv_files
         /\ t = total_rows + total_height h csv_files
         /\ row_counts (trace r) = map (fun name => height (table h name)) csv_files
     | Raised _ => True
     | Exited _ => False
     end
  /\ readings (trace r) = enumerated n i (reads (trace r))
  /\ filter is_ask (trace r) = [].

(** The five ways a run of [main] can go. *)
Inductive main_case (USE_POLARS : bool) (h : Host) (out : option string) : Prop :=
| NoDirectory :
    listing h = None ->
    main USE_POLARS h out = mkRun (Exited 1) out [Print MsgNoDirectory] ->
    main_case USE_POLARS h out
| NoCsvFiles (names : list string) :
    listing h = Some names ->
    sorted (glob_csv names) = [] ->
    main USE_POLARS h out = mkRun (Exited 1) out [Print MsgNoCsvFiles] ->
    main_case USE_POLARS h out
| EndOfInput (names : list string) (text : string) :
    listing h = Some names ->
    sorted (glob_csv names) <> [] ->
    out = Some text ->
    stdin h = None ->
    main USE_POLARS h out = mkRun (Raised (Exception "EOF when reading a line")) out [Ask] ->
    main_case USE_POLARS h out
| Cancelled (names : list string) (text line : string) :
    listing h = Some names ->
    sorted (glob_csv names) <> [] ->
    out = Some text ->
    stdin h = Some line ->
    lower line <> "y"%string ->
    main USE_POLARS h out = mkRun (Exited 0) out [Ask; Print MsgCancelled] ->
    main_case USE_POLARS h out
| Combined (names : list string) :
    listing h = Some names ->
    sorted (glob_csv names) <> [] ->
    out = None \/ (exists line, stdin h = Some line /\ lower line = "y"%string) ->
    main_case USE_POLARS h out.

(** Finds an event in a trace that is known up to the part a loop
    contributes. *)
Ltac in_trace :=
  simpl; rewrite ?in_app_iff; simpl; repeat (first [left; reflexivity | right]).

(** ** Lemmas on strings *)

Section StringFacts.

Local Open Scope string_scope.

Lemma app_empty_r (s : string) : s ++ EmptyString = s.
Proof. induction s as [|c s IH]; simpl; [reflexivity | now rewrite IH]. Qed.

Lemma app_assoc_s (a b c : string) : (a ++ b) ++ c = a ++ b ++ c.
Proof. induction a as [|x a IH]; simpl; [reflexivity | now rewrite IH]. Qed.

Lemma LF_isspace : isspace LF = true.
Proof. reflexivity. Qed.

Lemma split_lines_not_nil (s : string) : split_lines s <> [].
Proof.
  destruct s as [|c s]; simpl; [discriminate|].
  destruct (Ascii.eqb c LF); [discriminate|].
  destruct (split_lines s); discriminate.
Qed.

(** Splitting at the line breaks and joining with line breaks gives
    the text back. *)
Lemma join_split_lines (s : string) : join nl (split_lines s) = s.
Proof.
  induction s as [|c s IH]; simpl; [reflexivity|].
  destruct (Ascii.eqb_spec c LF) as [->|Hc].
  - pose proof (split_lines_not_nil s) as Hne.
    destruct (split_lines s) as [|l ls] eqn:E; [contradiction|].
    change (join nl (EmptyString :: l :: ls)) with (EmptyString ++ nl ++ join nl (l :: ls)).
    rewrite IH. reflexivity.
  - pose proof (split_lines_not_nil s) as Hne.
    destruct (split_lines s) as [|l ls] eqn:E; [contradiction|].
    destruct ls as [|l' ls].
    + simpl in *. now rewrite IH.
    + change (join nl (String c l :: l' :: ls))
        with (String c (l ++ nl ++ join nl (l' :: ls))).
      change (join nl (l :: l' :: ls)) with (l ++ nl ++ join nl (l' :: ls)) in IH.
      now rewrite IH.
Qed.

(** The first line of a text is split off as it stands. *)
Lemma split_lines_first (first rest : string) :
  has_newline first = false ->
  split_lines (first ++ nl ++ rest) = first :: split_lines rest.
Proof.
  unfold nl. induction first as [|c first IH]; simpl; intros H.
  - reflexivity.
  - apply orb_false_iff in H as [Hc Hf].
    simpl in IH. rewrite Hc, (IH Hf). reflexivity.
Qed.

Lemma lstrip_app (s t : string) :
  all_space s = false -> lstrip (s ++ t) = lstrip s ++ t.
Proof.
  induction s as [|c s IH]; simpl; intros H; [discriminate|].
  destruct (isspace c); simpl in *; [now apply IH | reflexivity].
Qed.

Lemma lstrip_has_newline (s : string) :
  has_newline s = false -> has_newline (lstrip s) = false.
Proof.
  induction s as [|c s IH]; simpl; intros H; [reflexivity|].
  apply orb_false_iff in H as [Hc Hs].
  destruct (isspace c); [now apply IH | simpl; now rewrite Hc, Hs].
Qed.

Lemma lstrip_all_space (s : string) :
  all_space s = false -> all_space (lstrip s) = false.
Proof.
  induction s as [|c s IH]; simpl; intros H; [discriminate|].
  destruct (isspace c) eqn:E; simpl in *; [now apply IH | now rewrite E].
Qed.

Lemma rstrip_all_space (w : string) : all_space w = true -> rstrip w = EmptyString.
Proof.
  induction w as [|c w IH]; simpl; intros H; [reflexivity|].
  apply andb_true_iff in H as [Hc Hw].
  now rewrite (IH Hw), Hc.
Qed.

Lemma ends_solid_not_empty (s : string) : ends_solid s = true -> s <> EmptyString.
Proof. destruct s; simpl; [discriminate | intros _; discriminate]. Qed.

(** White space after a text that ends solid is all [rstrip] removes. *)
Lemma rstrip_solid (s w : string) :
  ends_solid s = true -> all_space w = true -> rstrip (s ++ w) = s.
Proof.
  induction s as [|c s IH]; intros Hs Hw; [discriminate|].
  destruct s as [|c' s].
  - simpl in *. rewrite (rstrip_all_space w Hw).
    apply negb_true_iff in Hs. now rewrite Hs.
  - change ((String c (String c' s)) ++ w) with (String c (String c' s ++ w)).
    cbn [rstrip]. rewrite (IH Hs Hw). reflexivity.
Qed.

Lemma ends_solid_app (a b : string) :
  ends_solid b = true -> ends_solid (a ++ b) = true.
Proof.
  intros Hb. induction a as [|c a IH]; simpl; [exact Hb|].
  destruct (a ++ b) eqn:E; [|exact IH].
  destruct a; simpl in E; [|discriminate].
  subst b. discriminate.
Qed.

(** Lines written one after the other are the lines joined, with one
    more line break. *)
Lemma terminated_join (lines : list string) :
  lines <> [] -> terminated lines = join nl lines ++ nl.
Proof.
  induction lines as [|l ls IH]; intros H; [contradiction|].
  destruct ls as [|l' ls].
  - reflexivity.
  - change (terminated (l :: l' :: ls)) with (l ++ nl ++ terminated (l' :: ls)).
    change (join nl (l :: l' :: ls)) with (l ++ nl ++ join nl (l' :: ls)).
    rewrite IH by discriminate.
    now rewrite !app_assoc_s.
Qed.

Lemma terminated_app (xs ys : list string) :
  terminated (xs ++ ys) = terminated xs ++ terminated ys.
Proof.
  induction xs as [|x xs IH]; simpl; [reflexivity|].
  now rewrite IH, !app_assoc_s.
Qed.

Lemma join_ends_solid (lines : list string) :
  ends_solid (last lines EmptyString) = true -> ends_solid (join nl lines) = true.
Proof.
  induction lines as [|l ls IH]; intros H; [discriminate|].
  destruct ls as [|l' ls]; [exact H|].
  change (join nl (l :: l' :: ls)) with (l ++ nl ++ join nl (l' :: ls)).
  rewrite <- app_assoc_s. apply ends_solid_app, IH. exact H.
Qed.

End StringFacts.

(** On a tidy table the header suppression of lines 60 to 63 writes the
    data rows, each ended by LF, and nothing else. *)
Lemma polars_rest_tidy (df : DataFrame) :
  tidy df = true -> polars_rest df = terminated (row_lines df).
Proof.
  unfold tidy, polars_rest, write_csv. intros H.
  apply andb_true_iff in H as [H Hlast].
  apply andb_true_iff in H as [Hnl Hsp].
  apply negb_true_iff in Hnl, Hsp.
  assert (Hne : row_lines df <> []).
  { intros E. rewrite E in Hlast. discriminate. }
  rewrite (terminated_join _ Hne). unfold strip.
  rewrite (lstrip_app _ _ Hsp).
  set (first := lstrip (header_line df)).
  set (body := join nl (row_lines df)).
  assert (Hb : ends_solid body = true) by now apply join_ends_solid.
  replace (first ++ nl ++ body ++ nl)%string
    with ((first ++ nl ++ body) ++ nl)%string by now rewrite !app_assoc_s.
  rewrite rstrip_solid; [| | reflexivity].
  - rewrite split_lines_first by now apply lstrip_has_newline.
    cbn [skipn]. now rewrite join_split_lines.
  - rewrite <- app_assoc_s. now apply ends_solid_app.
Qed.

Lemma ends_solid_lstrip (s : string) :
  ends_solid s = true -> ends_solid (lstrip s) = true /\ all_space s = false.
Proof.
  induction s as [|c s IH]; [discriminate|].
  destruct s as [|c' s].
  - simpl. intros H. apply negb_true_iff in H. rewrite H. simpl. now rewrite H.
  - intros H. change (ends_solid (String c' s) = true) in H.
    destruct (IH H) as [H1 H2].
    cbn [lstrip all_space]. destruct (isspace c); [now split|].
    split; [exact H | reflexivity].
Qed.

Lemma split_lines_single (s : string) :
  has_newline s = false -> split_lines s = [s].
Proof.
  induction s as [|c s IH]; simpl; intros H; [reflexivity|].
  apply orb_false_iff in H as [Hc Hs]. now rewrite Hc, (IH Hs).
Qed.

(** X3.  On a table without data rows, whose header line has no line
    break and ends with a character that is not white, the header
    suppression of lines 60 to 63 writes one empty line. *)
Lemma polars_rest_empty (df : DataFrame) :
  rows df = [] ->
  has_newline (header_line df) = false ->
  ends_solid (header_line df) = true ->
  polars_rest df = nl.
Proof.
  intros Hrows Hnl Hsolid.
  destruct (ends_solid_lstrip _ Hsolid) as [Hl Hsp].
  unfold polars_rest, write_csv, row_lines. rewrite Hrows.
  cbn [map terminated]. unfold strip.
  rewrite (lstrip_app _ _ Hsp), app_empty_r.
  rewrite (rstrip_solid _ nl Hl eq_refl).
  rewrite (split_lines_single _ (lstrip_has_newline _ Hnl)).
  reflexivity.
Qed.

(** ** Lemmas on runs *)

Lemma run_eta {A} (r : run A) : r = mkRun (result r) (output r) (trace r).
Proof. now destruct r. Qed.

Lemma bind_normal {A B} (m : M A) (k : A -> M B) out a o t :
  m out = mkRun (Normal a) o t ->
  bind m k out = mkRun (result (k a o)) (output (k a o)) (t ++ trace (k a o)).
Proof. intros H. unfold bind. rewrite H. now destruct (k a o). Qed.

Lemma bind_ext {A B} (m : M A) (k k' : A -> M B) out :
  (forall a o, k a o = k' a o) -> bind m k out = bind m k' out.
Proof.
  intros H. unfold bind. destruct (m out) as [[a|e|s] o tr]; [|reflexivity..].
  now rewrite H.
Qed.

Lemma bind_raised {A B} (m : M A) (k : A -> M B) out e o t :
  m out = mkRun (Raised e) o t -> bind m k out = mkRun (Raised e) o t.
Proof. intros H. unfold bind. now rewrite H. Qed.

Lemma try_except_normal {A} (m : M A) (handler : Exn -> M A) out a o t :
  m out = mkRun (Normal a) o t -> try_except m handler out = mkRun (Normal a) o t.
Proof. intros H. unfold try_except. now rewrite H. Qed.

Lemma try_except_raised {A} (m : M A) (handler : Exn -> M A) out e o t :
  m out = mkRun (Raised e) o t ->
  try_except m handler out
  = mkRun (result (handler e o)) (output (handler e o)) (t ++ trace (handler e o)).
Proof. intros H. unfold try_except. rewrite H. now destruct (handler e o). Qed.

Lemma appended_appended (out : option string) (a b : string) :
  appended (appended out a) b = appended out (a ++ b)%string.
Proof. destruct out; simpl; [now rewrite app_assoc_s | reflexivity]. Qed.

Lemma reads_app (a b : list event) : reads (a ++ b) = reads a ++ reads b.
Proof.
  induction a as [|ev a IH]; simpl; [reflexivity|].
  destruct ev; simpl; now rewrite IH.
Qed.

Lemma counted_plain (h : Host) (name : string) :
  reads (counted h name) = []
  /\ existsb is_summary (counted h name) = false
  /\ existsb touches (counted h name) = false.
Proof. unfold counted. now destruct (read_csv h name). Qed.

Lemma sound_table (h : Host) (name : string) :
  sound h name -> read_csv h name = inr (table h name).
Proof. unfold table. intros [[df Hr] _]. now rewrite Hr. Qed.

(** A file is sound under either strategy exactly when nothing is
    raised in its turn and nothing goes wrong with its write. *)
Lemma sound_not_raised (USE_POLARS : bool) (h : Host) (name : string) :
  sound h name -> raised_in_step USE_POLARS h name = None.
Proof. unfold sound, raised_in_step. intros [[df ->] ->]. reflexivity. Qed.

Lemma not_raised_readable (USE_POLARS : bool) (h : Host) (name : string) :
  raised_in_step USE_POLARS h name = None ->
  read_csv h name = inr (table h name).
Proof.
  unfold raised_in_step, table. destruct (read_csv h name); [discriminate | reflexivity].
Qed.

Lemma pandas_not_raised_sound (h : Host) (name : string) :
  raised_in_step false h name = None -> sound h name.
Proof.
  unfold raised_in_step, sound. destruct (read_csv h name) as [e|df]; [discriminate|].
  destruct (write_error h name); [discriminate|]. intros _. split; [now exists df | reflexivity].
Qed.

Section Steps.

Variable h : Host.
Variables n i : nat.
Variable csv_file : string.

(** One turn of the Polars loop in which nothing is raised. *)
Lemma polars_step_passes (total_rows : nat) (f_out : handle) (out : option string) :
  raised_in_step true h csv_file = None ->
  polars_step h n i csv_file total_rows f_out out
  = mkRun (Normal (total_rows + height (table h csv_file), held_back h csv_file f_out))
      (polars_left h i csv_file f_out out)
      [Print (MsgReading i n csv_file); Read csv_file;
       Print (MsgRowCount (height (table h csv_file)));
       Write (polars_data i (table h csv_file))].
Proof.
  unfold raised_in_step, table, held_back, polars_left, taken, polars_data,
    polars_step, try_except, bind, do_read_csv, f_out_write.
  destruct (read_csv h csv_file) as [e|df]; [discriminate|].
  destruct (write_error h csv_file) as [fault|]; simpl.
  - destruct (in_call fault); [discriminate|]. intros _.
    destruct (i =? 1); reflexivity.
  - intros _. destruct (i =? 1); reflexivity.
Qed.

(** One turn of the Polars loop in which the read or the write raises. *)
Lemma polars_step_raises (e : Exn) (total_rows : nat) (f_out : handle)
    (out : option string) :
  raised_in_step true h csv_file = Some e ->
  polars_step h n i csv_file total_rows f_out out
  = mkRun (Raised e) (polars_left h i csv_file f_out out)
      (Print (MsgReading i n csv_file) :: Read csv_file
         :: counted h csv_file ++ [Print (MsgErrorReading csv_file e)]).
Proof.
  unfold raised_in_step, counted, polars_left, taken, polars_data,
    polars_step, try_except, bind, do_read_csv, f_out_write.
  destruct (read_csv h csv_file) as [e'|df]; simpl.
  - intros [= ->]. reflexivity.
  - destruct (write_error h csv_file) as [fault|]; [|discriminate].
    destruct (in_call fault); [|discriminate]. simpl. intros [= <-].
    destruct (i =? 1); reflexivity.
Qed.

(** One turn of the Polars loop on a file that is read and written,
    with a handle that holds nothing back. *)
Lemma polars_step_sound (df : DataFrame) (total_rows : nat) (out : option string) :
  read_csv h csv_file = inr df ->
  write_error h csv_file = None ->
  let data := if i =? 1 then write_csv df else polars_rest df in
  polars_step h n i csv_file total_rows None out
  = mkRun (Normal (total_rows + height df, None)) (appended out data)
      [Print (MsgReading i n csv_file); Read csv_file;
       Print (MsgRowCount (height df)); Write data].
Proof.
  intros Hr Hw. unfold polars_step, try_except, bind, do_read_csv, f_out_write.
  rewrite Hr, Hw. simpl. destruct (i =? 1); reflexivity.
Qed.

Lemma pandas_step_sound (df : DataFrame) (total_rows : nat)
    (first_file : bool) (out : option string) :
  read_csv h csv_file = inr df ->
  write_error h csv_file = None ->
  let data := to_csv first_file df in
  pandas_step h n i csv_file total_rows first_file out
  = mkRun (Normal (total_rows + height df, false))
      (if first_file then Some data else appended out data)
      [Print (MsgReading i n csv_file); Read csv_file;
       Print (MsgRowCount (height df)); ToCsv (negb first_file) data].
Proof.
  intros Hr Hw. unfold pandas_step, try_except, bind, do_read_csv, df_to_csv.
  rewrite Hr, Hw. simpl. destruct first_file; reflexivity.
Qed.

(** One turn of the Pandas loop in which the read or the write raises. *)
Lemma pandas_step_raises (e : Exn) (total_rows : nat)
    (first_file : bool) (out : option string) :
  raised_in_step false h csv_file = Some e ->
  pandas_step h n i csv_file total_rows first_file out
  = mkRun (Raised e) (pandas_left h csv_file first_file out)
      (Print (MsgReading i n csv_file) :: Read csv_file
         :: counted h csv_file ++ [Print (MsgErrorReading csv_file e)]).
Proof.
  unfold raised_in_step, counted, pandas_left, taken,
    pandas_step, try_except, bind, do_read_csv, df_to_csv.
  destruct (read_csv h csv_file) as [e'|df]; simpl.
  - intros [= ->]. reflexivity.
  - destruct (write_error h csv_file) as [fault|]; [|discriminate].
    simpl. intros [= <-]. destruct first_file; reflexivity.
Qed.

(** How a turn of the Polars loop enters the run of the with-block. *)
Lemma polars_loop_passes (later : list string) (total_rows : nat) (f_out : handle)
    (out : option string) :
  raised_in_step true h csv_file = None ->
  let rest := polars_loop h n (S i) later
                (total_rows + height (table h csv_file))
                (held_back h csv_file f_out)
                (polars_left h i csv_file f_out out) in
  polars_loop h n i (csv_file :: later) total_rows f_out out
  = mkRun (result rest) (output rest)
      ([Print (MsgReading i n csv_file); Read csv_file;
        Print (MsgRowCount (height (table h csv_file)));
        Write (polars_data i (table h csv_file))] ++ trace rest).
Proof.
  intros Hn. cbv zeta. cbn [polars_loop].
  rewrite (bind_normal _ _ _ _ _ _
             (try_except_normal _ _ _ _ _ _
                (polars_step_passes total_rows f_out out Hn))).
  reflexivity.
Qed.

Lemma polars_loop_raises (later : list string) (e : Exn) (total_rows : nat)
    (f_out : handle) (out : option string) :
  raised_in_step true h csv_file = Some e ->
  polars_loop h n i (csv_file :: later) total_rows f_out out
  = mkRun (Raised (leaving f_out e)) (polars_left h i csv_file f_out out)
      (Print (MsgReading i n csv_file) :: Read csv_file
         :: counted h csv_file ++ [Print (MsgErrorReading csv_file e)]).
Proof.
  intros He. cbn [polars_loop].
  apply bind_raised.
  rewrite (try_except_raised _ _ _ _ _ _
             (polars_step_raises e total_rows f_out out He)).
  destruct f_out; simpl; now rewrite app_nil_r.
Qed.

End Steps.

(** ** Lemmas on the loops *)

Section Loops.

Variable h : Host.
Variable n : nat.

(** The loop stops at the first file in whose turn the read or the
    write raises: the exception goes on, the diagnostic is the last
    thing printed, and no file after that one has been read. *)
Lemma polars_loop_abort (before after : list string) (f : string) (e : Exn) :
  Forall (sound h) before ->
  raised_in_step true h f = Some e ->
  forall i total_rows out,
  exists pre o,
    polars_loop h n i (before ++ f :: after) total_rows None out
    = mkRun (Raised e) o (pre ++ [Print (MsgErrorReading f e)])
    /\ reads pre = before ++ [f]
    /\ existsb is_summary pre = false.
Proof.
  intros Hsound Hf. induction Hsound as [|x before Hx _ IH]; intros i t out.
  - cbn [app]. rewrite (polars_loop_raises h n i f after e t None out Hf).
    exists (Print (MsgReading i n f) :: Read f :: counted h f), (polars_left h i f None out).
    destruct (counted_plain h f) as (Hr & Hs & _).
    split; [reflexivity|]. simpl. rewrite Hr, Hs. now split.
  - pose proof (sound_table h x Hx) as Hr. destruct Hx as [_ Hw].
    cbn [app polars_loop].
    rewrite (bind_normal _ _ _ _ _ _
               (try_except_normal _ _ _ _ _ _
                  (polars_step_sound h n i x _ t out Hr Hw))).
    cbn [fst snd].
    destruct (IH (S i) (t + height (table h x))
                (appended out (if i =? 1 then write_csv (table h x)
                               else polars_rest (table h x))))
      as (pre & o & Heq & Hreads & Hsum).
    rewrite Heq. cbn [result output trace].
    eexists (_ :: _ :: _ :: _ :: pre), o.
    split; [reflexivity|]. simpl. rewrite Hreads, Hsum. now split.
Qed.

Lemma pandas_loop_abort (before after : list string) (f : string) (e : Exn) :
  Forall (sound h) before ->
  raised_in_step false h f = Some e ->
  forall i total_rows first_file out,
  exists pre o,
    pandas_loop h n i (before ++ f :: after) total_rows first_file out
    = mkRun (Raised e) o (pre ++ [Print (MsgErrorReading f e)])
    /\ reads pre = before ++ [f]
    /\ existsb is_summary pre = false.
Proof.
  intros Hsound Hf. induction Hsound as [|x before Hx _ IH]; intros i t ff out.
  - cbn [app pandas_loop].
    rewrite (bind_raised _ _ _ _ _ _ (pandas_step_raises h n i f e t ff out Hf)).
    exists (Print (MsgReading i n f) :: Read f :: counted h f), (pandas_left h f ff out).
    destruct (counted_plain h f) as (Hr & Hs & _).
    split; [reflexivity|]. simpl. rewrite Hr, Hs. now split.
  - destruct Hx as [[df Hr] Hw]. cbn [app pandas_loop].
    rewrite (bind_normal _ _ _ _ _ _ (pandas_step_sound h n i x df t ff out Hr Hw)).
    cbn [fst snd].
    destruct (IH (S i) (t + height df) false
                (if ff then Some (to_csv ff df) else appended out (to_csv ff df)))
      as (pre & o & Heq & Hreads & Hsum).
    rewrite Heq. cbn [result output trace].
    eexists (_ :: _ :: _ :: _ :: pre), o.
    split; [reflexivity|]. simpl. rewrite Hreads, Hsum. now split.
Qed.

(** Past the first file the Pandas loop adds the data rows of every
    file to the output and counts them. *)
Lemma pandas_loop_sound (csv_files : list string) :
  Forall (sound h) csv_files ->
  forall i total_rows text,
    let r := pandas_loop h n i csv_files total_rows false (Some text) in
    result r = Normal (total_rows + total_height h csv_files)
    /\ output r = Some (text ++ terminated (all_rows h csv_files))%string
    /\ reads (trace r) = csv_files.
Proof.
  intros Hsound. induction Hsound as [|x later Hx _ IH]; intros i t text.
  - simpl. unfold total_height. simpl. now rewrite Nat.add_0_r, app_empty_r.
  - pose proof (sound_table h x Hx) as Hr. destruct Hx as [_ Hw].
    cbn [pandas_loop]. cbv zeta.
    rewrite (bind_normal _ _ _ _ _ _
               (pandas_step_sound h n i x _ t false (Some text) Hr Hw)).
    cbn [fst snd result output trace appended].
    destruct (IH (S i) (t + height (table h x))
                (text ++ to_csv false (table h x))%string) as (Hres & Hout & Hreads).
    rewrite Hres, Hout. simpl reads. rewrite Hreads.
    unfold total_height, all_rows, to_csv. cbn [map list_sum fold_right flat_map].
    now rewrite terminated_app, Nat.add_assoc, app_assoc_s.
Qed.

(** So does the Polars loop, as long as the tables are tidy. *)
Lemma polars_loop_tidy (csv_files : list string) :
  Forall (sound h) csv_files ->
  Forall (fun name => tidy (table h name) = true) csv_files ->
  forall i total_rows text,
    2 <= i ->
    let r := polars_loop h n i csv_files total_rows None (Some text) in
    result r = Normal (total_rows + total_height h csv_files)
    /\ output r = Some (text ++ terminated (all_rows h csv_files))%string
    /\ reads (trace r) = csv_files.
Proof.
  intros Hsound. induction Hsound as [|x later Hx _ IH]; intros Htidy i t text Hi.
  - simpl. unfold total_height. simpl. now rewrite Nat.add_0_r, app_empty_r.
  - pose proof (sound_table h x Hx) as Hr. destruct Hx as [_ Hw].
    inversion Htidy as [|? ? Hx Hlater]; subst.
    cbn [polars_loop]. cbv zeta.
    rewrite (bind_normal _ _ _ _ _ _
               (try_except_normal _ _ _ _ _ _
                  (polars_step_sound h n i x _ t (Some text) Hr Hw))).
    cbn [fst snd result output trace appended].
    replace (i =? 1) with false by (symmetry; apply Nat.eqb_neq; lia).
    rewrite (polars_rest_tidy _ Hx).
    destruct (IH Hlater (S i) (t + height (table h x))
                (text ++ terminated (row_lines (table h x)))%string)
      as (Hres & Hout & Hreads); [lia|].
    rewrite Hres, Hout. simpl reads. rewrite Hreads.
    unfold total_height, all_rows. cbn [map list_sum fold_right flat_map].
    now rewrite terminated_app, Nat.add_assoc, app_assoc_s.
Qed.

End Loops.

(** ** Lemmas on the order of the input files *)

Section Order.

Local Open Scope string_scope.

Lemma compare_as_OT (s t : string) : (s ?= t) = String_as_OT.compare s t.
Proof.
  reflexivity.
Qed.

Lemma ltb_lt (s t : string) : (s <? t) = true <-> String_as_OT.lt s t.
Proof.
  unfold String.ltb, String_as_OT.lt. rewrite compare_as_OT.
  destruct (String_as_OT.compare s t); split; congruence.
Qed.

Lemma ltb_connected (s t : string) :
  (s <? t) = false -> (t <? s) = false -> s = t.
Proof.
  unfold String.ltb. rewrite (String.compare_antisym t s).
  destruct (s ?= t) eqn:E; simpl; try discriminate.
  intros _ _. now apply String.compare_eq_iff.
Qed.

Lemma ltb_trans (s t u : string) :
  (s <? t) = true -> (t <? u) = true -> (s <? u) = true.
Proof.
  rewrite !ltb_lt. apply String_as_OT.lt_strorder.
Qed.

Lemma ltb_asym (s t : string) : (s <? t) = true -> (t <? s) = false.
Proof.
  intros H. destruct (t <? s) eqn:E; [|reflexivity].
  pose proof (ltb_trans _ _ _ H E) as Hss. apply ltb_lt in Hss.
  now apply (@StrictOrder_Irreflexive _ _ String_as_OT.lt_strorder) in Hss.
Qed.

(** [y <= h] and [h < x] give [y < x]. *)
Lemma ltb_below (h x y : string) :
  (h <? y) = false -> (h <? x) = true -> (y <? x) = true.
Proof.
  intros Hy Hx. destruct (y <? h) eqn:E.
  - exact (ltb_trans _ _ _ E Hx).
  - now rewrite (ltb_connected _ _ E Hy).
Qed.

Lemma insert_sorted_comm (x y : string) (l : list string) :
  insert_sorted x (insert_sorted y l) = insert_sorted y (insert_sorted x l).
Proof.
  assert (Hxy : forall t, (if y <? x then y :: x :: t else x :: y :: t)
                          = (if x <? y then x :: y :: t else y :: x :: t)).
  { intros t. destruct (y <? x) eqn:A, (x <? y) eqn:B; try reflexivity.
    - now rewrite (ltb_asym _ _ A) in B.
    - now rewrite (ltb_connected _ _ A B). }
  induction l as [|h t IH]; simpl.
  - apply Hxy.
  - destruct (h <? x) eqn:Hx, (h <? y) eqn:Hy; simpl; rewrite ?Hx, ?Hy.
    + now rewrite IH.
    + now rewrite (ltb_below _ _ _ Hy Hx).
    + now rewrite (ltb_below _ _ _ Hx Hy).
    + apply Hxy.
Qed.

(** The sorted list depends on the names only, not on the order in
    which the operating system lists them. *)
Lemma sorted_Permutation (l l' : list string) :
  Permutation l l' -> sorted l = sorted l'.
Proof.
  induction 1 as [|x l l' _ IH|x y l|l l' l'' _ IH1 _ IH2]; simpl.
  - reflexivity.
  - now rewrite IH.
  - apply insert_sorted_comm.
  - now rewrite IH1.
Qed.

Lemma glob_csv_Permutation (l l' : list string) :
  Permutation l l' -> Permutation (glob_csv l) (glob_csv l').
Proof.
  unfold glob_csv.
  induction 1 as [|x l l' _ IH|x y l|l l' l'' _ IH1 _ IH2]; simpl.
  - constructor.
  - destruct (endswith ".csv" x); [now constructor | exact IH].
  - destruct (endswith ".csv" x), (endswith ".csv" y);
      try apply Permutation_refl. apply perm_swap.
  - now apply Permutation_trans with (glob_csv l').
Qed.

Lemma insert_sorted_not_nil (x : string) (l : list string) :
  insert_sorted x l <> [].
Proof. destruct l as [|y t]; simpl; [|destruct (y <? x)]; discriminate. Qed.

Lemma sorted_nil_iff (l : list string) : sorted l = [] <-> l = [].
Proof.
  split; [|now intros ->].
  destruct l as [|x t]; [reflexivity|]. simpl. intros H.
  now apply insert_sorted_not_nil in H.
Qed.

End Order.

(** ** The strategies as a whole *)

Lemma combine_csv_polars_run (h : Host) (csv_files : list string) (out : option string) :
  let n := length csv_files in
  let loop := polars_loop h n 1 csv_files 0 None (Some EmptyString) in
  combine_csv_polars h csv_files out
  = mkRun (settle (result loop)) (output loop)
      (Print (MsgCombining n Polars) :: Print MsgOutputFile :: Print MsgRule
         :: OpenW :: trace loop ++ summary_of n (result loop)).
Proof.
  unfold combine_csv_polars, bind, print, emit, open_w. simpl.
  destruct (polars_loop h (length csv_files) 1 csv_files 0 None (Some EmptyString))
    as [[total|e|c] o tr]; simpl; rewrite ?app_nil_r; reflexivity.
Qed.

Lemma combine_csv_pandas_run (h : Host) (csv_files : list string) (out : option string) :
  let n := length csv_files in
  let loop := pandas_loop h n 1 csv_files 0 true out in
  combine_csv_pandas h csv_files out
  = mkRun (settle (result loop)) (output loop)
      (Print (MsgCombining n Pandas) :: Print MsgOutputFile :: Print MsgRule
         :: trace loop ++ summary_of n (result loop)).
Proof.
  unfold combine_csv_pandas, bind, print, emit. simpl.
  destruct (pandas_loop h (length csv_files) 1 csv_files 0 true out)
    as [[total|e|c] o tr]; simpl; rewrite ?app_nil_r; reflexivity.
Qed.

Lemma to_csv_header (df : DataFrame) : to_csv true df = write_csv df.
Proof. unfold to_csv, write_csv. now rewrite app_assoc_s. Qed.

Lemma concatenation_cons (h : Host) (first : string) (later : list string) :
  concatenation h (first :: later)
  = (write_csv (table h first) ++ terminated (all_rows h later))%string.
Proof.
  unfold concatenation, write_csv, all_rows. cbn [flat_map].
  now rewrite terminated_app, !app_assoc_s.
Qed.

(** The Pandas strategy on files that are all read and written: the
    output is the concatenation, whatever the output file held, and the
    total that is printed is the sum of the row counts. *)
Lemma combine_csv_pandas_sound (h : Host) (first : string) (later : list string)
    (out : option string) :
  Forall (sound h) (first :: later) ->
  let r := combine_csv_pandas h (first :: later) out in
  result r = Normal tt
  /\ output r = Some (concatenation h (first :: later))
  /\ In (Print (MsgTotalRows (total_height h (first :: later)))) (trace r)
  /\ reads (trace r) = first :: later.
Proof.
  intros Hall. inversion Hall as [|? ? Hfirst Hlater]; subst.
  pose proof (sound_table h first Hfirst) as Hr. destruct Hfirst as [_ Hw].
  cbv zeta. rewrite combine_csv_pandas_run. cbv zeta. cbn [pandas_loop].
  rewrite (bind_normal _ _ _ _ _ _
             (pandas_step_sound h _ 1 first _ 0 true out Hr Hw)).
  cbn [fst snd result output trace].
  destruct (pandas_loop_sound h (length (first :: later)) later Hlater 2
              (0 + height (table h first)) (to_csv true (table h first)))
    as (Hres & Hout & Hreads).
  rewrite Hres. repeat split.
  - now rewrite Hout, to_csv_header, concatenation_cons.
  - unfold total_height. in_trace.
  - cbn [summary_of app reads]. rewrite reads_app, Hreads.
    cbn [reads]. now rewrite app_nil_r.
Qed.

(** The Polars strategy does the same when every file after the first
    holds a tidy table. *)
Lemma combine_csv_polars_tidy (h : Host) (first : string) (later : list string)
    (out : option string) :
  Forall (sound h) (first :: later) ->
  Forall (fun name => tidy (table h name) = true) later ->
  let r := combine_csv_polars h (first :: later) out in
  result r = Normal tt
  /\ output r = Some (concatenation h (first :: later))
  /\ In (Print (MsgTotalRows (total_height h (first :: later)))) (trace r)
  /\ reads (trace r) = first :: later.
Proof.
  intros Hall Htidy. inversion Hall as [|? ? Hfirst Hlater]; subst.
  pose proof (sound_table h first Hfirst) as Hr. destruct Hfirst as [_ Hw].
  cbv zeta. rewrite combine_csv_polars_run. cbv zeta. cbn [polars_loop].
  rewrite (bind_normal _ _ _ _ _ _
             (try_except_normal _ _ _ _ _ _
                (polars_step_sound h _ 1 first _ 0 (Some EmptyString) Hr Hw))).
  cbn [fst snd result output trace Nat.eqb appended String.append].
  destruct (polars_loop_tidy h (length (first :: later)) later Hlater Htidy 2
              (0 + height (table h first)) (write_csv (table h first)))
    as (Hres & Hout & Hreads); [lia|].
  rewrite Hres. repeat split.
  - now rewrite Hout, concatenation_cons.
  - unfold total_height. in_trace.
  - cbn [summary_of app reads]. rewrite reads_app, Hreads.
    cbn [reads]. now rewrite app_nil_r.
Qed.


(** ** The entry point as a whole *)

(** The run of [main] once the input files are found and nothing stands
    in the way of the overwrite, in terms of the run of the strategy. *)
Lemma main_run (USE_POLARS : bool) (h : Host) (names : list string)
    (out : option string) :
  listing h = Some names ->
  sorted (glob_csv names) <> [] ->
  out = None \/ (exists line, stdin h = Some line /\ lower line = "y"%string) ->
  let csv_files := sorted (glob_csv names) in
  let c := (if USE_POLARS then combine_csv_polars h csv_files
            else combine_csv_pandas h csv_files) out in
  let before := opening USE_POLARS (length csv_files) out in
  main USE_POLARS h out
  = match result c with
    | Normal _ =>
        match output c with
        | Some text =>
            mkRun (Normal tt) (output c)
              (before ++ trace c ++ [Print (MsgOutputSize (utf8_length text))])
        | None =>
            mkRun (Raised (Exception "[Errno 2] No such file or directory: 'dataverse_files/combined_data.csv'")) None
              (before ++ trace c)
        end
    | Raised e => mkRun (Exited 1) (output c) (before ++ trace c ++ [Print (MsgFailed e)])
    | Exited status => mkRun (Exited status) (output c) (before ++ trace c)
    end.
Proof.
  intros Hl Hne Hok. unfold main. rewrite Hl.
  destruct (sorted (glob_csv names)) as [|first later] eqn:E; [contradiction|].
  cbv zeta. unfold opening.
  generalize (combine_csv_polars h (first :: later)).
  generalize (combine_csv_pandas h (first :: later)).
  generalize (length (first :: later)).
  intros n pandas polars.
  destruct out as [text|].
  - destruct Hok as [Hno|(line & Hs & Hy)]; [discriminate|].
    unfold bind, output_exists, input, print, emit, try_except, stat_size,
      ret, raise, sys_exit.
    rewrite Hs. cbn. rewrite Hy. cbn.
    destruct USE_POLARS;
      [destruct (polars (Some text)) as [[u|e|s] [o|] tr]
      |destruct (pandas (Some text)) as [[u|e|s] [o|] tr]];
      cbn; rewrite ?app_nil_r, <- ?app_assoc; reflexivity.
  - unfold bind, output_exists, input, print, emit, try_except, stat_size,
      ret, raise, sys_exit. cbn.
    destruct USE_POLARS;
      [destruct (polars None) as [[u|e|s] [o|] tr]
      |destruct (pandas None) as [[u|e|s] [o|] tr]];
      cbn; rewrite ?app_nil_r, <- ?app_assoc; reflexivity.
Qed.

Lemma opening_plain (USE_POLARS : bool) (n : nat) (out : option string) :
  reads (opening USE_POLARS n out) = []
  /\ existsb is_summary (opening USE_POLARS n out) = false.
Proof. unfold opening. now destruct out. Qed.

(** Either strategy stops at the first file in whose turn the read or
    the write raises, and lets the exception through. *)
Lemma strategy_abort (USE_POLARS : bool) (h : Host)
    (before after : list string) (f : string) (e : Exn) :
  Forall (sound h) before ->
  raised_in_step USE_POLARS h f = Some e ->
  forall out,
  exists pre o,
    (if USE_POLARS then combine_csv_polars h (before ++ f :: after)
     else combine_csv_pandas h (before ++ f :: after)) out
    = mkRun (Raised e) o (pre ++ [Print (MsgErrorReading f e)])
    /\ reads pre = before ++ [f]
    /\ existsb is_summary pre = false.
Proof.
  intros Hsound Hf out. destruct USE_POLARS.
  - rewrite combine_csv_polars_run. cbv zeta.
    destruct (polars_loop_abort h (length (before ++ f :: after)) before after f e
                Hsound Hf 1 0 (Some EmptyString)) as (pre & o & Heq & Hreads & Hsum).
    rewrite Heq. cbn [result output trace settle summary_of].
    eexists (_ :: _ :: _ :: _ :: pre), o. rewrite app_nil_r.
    split; [reflexivity|]. simpl. now rewrite Hreads, Hsum.
  - rewrite combine_csv_pandas_run. cbv zeta.
    destruct (pandas_loop_abort h (length (before ++ f :: after)) before after f e
                Hsound Hf 1 0 true out) as (pre & o & Heq & Hreads & Hsum).
    rewrite Heq. cbn [result output trace settle summary_of].
    eexists (_ :: _ :: _ :: pre), o. rewrite app_nil_r.
    split; [reflexivity|]. simpl. now rewrite Hreads, Hsum.
Qed.

(** The strategies look at the host only through what reading and
    writing a file give. *)
Section SameFiles.

Variables h1 h2 : Host.
Hypothesis same_read : forall name, read_csv h1 name = read_csv h2 name.
Hypothesis same_write : forall name, write_error h1 name = write_error h2 name.

Lemma polars_step_same n i csv_file total_rows f_out :
  polars_step h1 n i csv_file total_rows f_out
  = polars_step h2 n i csv_file total_rows f_out.
Proof.
  unfold polars_step, do_read_csv, f_out_write.
  now rewrite same_read, same_write.
Qed.

Lemma pandas_step_same n i csv_file total_rows first_file :
  pandas_step h1 n i csv_file total_rows first_file
  = pandas_step h2 n i csv_file total_rows first_file.
Proof.
  unfold pandas_step, do_read_csv, df_to_csv.
  now rewrite same_read, same_write.
Qed.

Lemma polars_loop_same n csv_files :
  forall i total_rows f_out out,
    polars_loop h1 n i csv_files total_rows f_out out
    = polars_loop h2 n i csv_files total_rows f_out out.
Proof.
  induction csv_files as [|f later IH]; intros i t f_out out; [reflexivity|].
  cbn [polars_loop]. rewrite polars_step_same.
  apply bind_ext. intros st o. apply IH.
Qed.

Lemma pandas_loop_same n csv_files :
  forall i total_rows first_file out,
    pandas_loop h1 n i csv_files total_rows first_file out
    = pandas_loop h2 n i csv_files total_rows first_file out.
Proof.
  induction csv_files as [|f later IH]; intros i t ff out; [reflexivity|].
  cbn [pandas_loop]. unfold bind. rewrite pandas_step_same.
  destruct (pandas_step h2 n i f t ff out) as [[a|e|s] o tr]; [|reflexivity..].
  now rewrite IH.
Qed.

Lemma combine_csv_polars_same csv_files out :
  combine_csv_polars h1 csv_files out = combine_csv_polars h2 csv_files out.
Proof. now rewrite !combine_csv_polars_run, polars_loop_same. Qed.

Lemma combine_csv_pandas_same csv_files out :
  combine_csv_pandas h1 csv_files out = combine_csv_pandas h2 csv_files out.
Proof. now rewrite !combine_csv_pandas_run, pandas_loop_same. Qed.

End SameFiles.

(** The only response that lowers to [y] is [y] or [Y]. *)
Lemma lower_is_y (line : string) :
  lower line = "y"%string <-> line = "y"%string \/ line = "Y"%string.
Proof.
  split.
  - destruct line as [|c rest]; [discriminate|].
    destruct rest as [|c' rest]; [|discriminate].
    simpl. intros [= H].
    destruct c as [[] [] [] [] [] [] [] []]; vm_compute in H;
      try discriminate; auto.
  - intros [-> | ->]; reflexivity.
Qed.

(** The run of [main] when the overwrite is not confirmed. *)
Lemma main_cancelled (USE_POLARS : bool) (h : Host) (names : list string)
    (text line : string) :
  listing h = Some names ->
  glob_csv names <> [] ->
  stdin h = Some line ->
  lower line <> "y"%string ->
  main USE_POLARS h (Some text)
  = mkRun (Exited 0) (Some text) [Ask; Print MsgCancelled].
Proof.
  intros Hl Hg Hs Hy. unfold main. rewrite Hl.
  destruct (sorted (glob_csv names)) as [|first later] eqn:E.
  - apply (proj1 (sorted_nil_iff _)) in E. contradiction.
  - generalize (combine_csv_polars h (first :: later)).
    generalize (combine_csv_pandas h (first :: later)).
    intros pandas polars.
    unfold bind, output_exists, input, emit, ret. rewrite Hs. cbn.
    apply String.eqb_neq in Hy. rewrite Hy. reflexivity.
Qed.

(** The first thing a strategy does is to announce itself. *)
Lemma strategy_started (USE_POLARS : bool) (h : Host) (csv_files : list string)
    (out : option string) :
  exists rest,
    trace ((if USE_POLARS then combine_csv_polars h csv_files
            else combine_csv_pandas h csv_files) out)
    = Print (MsgCombining (length csv_files) (if USE_POLARS then Polars else Pandas))
        :: rest.
Proof.
  destruct USE_POLARS;
    [rewrite combine_csv_polars_run | rewrite combine_csv_pandas_run];
    cbv zeta; cbn [trace]; eexists; reflexivity.
Qed.

(** ** The claims *)

(** C1, at the input where the Polars strategy breaks it.  With the
    files [a.csv] (two rows) and [b.csv] (the header only), of the same
    schema, the Polars strategy ends the output with an empty line: its
    data rows are the two rows of [a.csv] and one empty record, which
    is not the concatenation of the data rows of the inputs.  The Pandas
    strategy writes the concatenation on the same input. *)
Theorem polars_blank_record_after_empty_file :
  let h := Sample.host ["b.csv"; "a.csv"] None in
  let csv_files := sorted (glob_csv ["b.csv"; "a.csv"]) in
  let polars := combine_csv_polars h csv_files None in
  let pandas := combine_csv_pandas h csv_files None in
  csv_files = ["a.csv"; "b.csv"]
  /\ all_rows h csv_files = ["1,x"; "2,y"]%string
  /\ result polars = Normal tt
  /\ output polars = Some (terminated ["id,val"; "1,x"; "2,y"; EmptyString]%string)
  /\ output_rows polars = ["1,x"; "2,y"; EmptyString]%string
  /\ output polars <> Some (concatenation h csv_files)
  /\ output pandas = Some (concatenation h csv_files).
Proof.
  cbv zeta. repeat split; try reflexivity. vm_compute. discriminate.
Qed.

(** C2, at an input where the Polars strategy breaks it.  With
    [a.csv] (two rows), [b.csv] (no row) and [c.csv] (one row) the
    summary reports three rows, the sum of the row counts, but the
    output of the Polars strategy holds four records after its header
    line.  *)
Theorem polars_row_count_after_empty_file :
  let h := Sample.host ["a.csv"; "b.csv"; "c.csv"] None in
  let csv_files := ["a.csv"; "b.csv"; "c.csv"] in
  let polars := combine_csv_polars h csv_files None in
  total_height h csv_files = 3
  /\ In (Print (MsgTotalRows 3)) (trace polars)
  /\ length (output_rows polars) = 4
  /\ length (output_rows (combine_csv_pandas h csv_files None)) = 3.
Proof.
  cbv zeta. repeat split; try reflexivity. vm_compute. tauto.
Qed.




(** C4, at an input where the Polars strategy breaks it.  The file
    [b.csv] holds the header only.  With it between [a.csv] and [c.csv]
    the output of the Polars strategy has an empty line that the output
    of the same run without [b.csv] does not have; the Pandas strategy
    writes the same output with and without it. *)
Theorem polars_empty_file_changes_output :
  let h := Sample.host ["a.csv"; "b.csv"; "c.csv"] None in
  height (table h "b.csv") = 0
  /\ output (combine_csv_polars h ["a.csv"; "b.csv"; "c.csv"]%string None)
     = Some (terminated ["id,val"; "1,x"; "2,y"; EmptyString; "3,z"]%string)
  /\ output (combine_csv_polars h ["a.csv"; "c.csv"]%string None)
     = Some (terminated ["id,val"; "1,x"; "2,y"; "3,z"]%string)
  /\ output (combine_csv_polars h ["a.csv"; "b.csv"; "c.csv"]%string None)
     <> output (combine_csv_polars h ["a.csv"; "c.csv"]%string None)
  /\ output (combine_csv_pandas h ["a.csv"; "b.csv"; "c.csv"]%string None)
     = output (combine_csv_pandas h ["a.csv"; "c.csv"]%string None).
Proof.
  cbv zeta. repeat split; try reflexivity. vm_compute. discriminate.
Qed.

(** C5, at an input where the Polars strategy breaks it.  The output
    file takes the rows of [a.csv] and one character of those of
    [c.csv], and the handle of line 42 holds the error back.  Under the
    Polars strategy the error is raised when the with-block closes the
    handle, outside the [try] of the loop: no diagnostic names a file,
    the later file [e.csv] has been read all the same, and only the
    failure line of [main] tells of the error before the exit with
    status 1.  Under the Pandas strategy the same disk gives what the
    claim says: the diagnostic names [c.csv], [e.csv] is not read. *)
Theorem polars_write_error_escapes_diagnostic :
  let held := FullDisk.host true ["a.csv"; "c.csv"; "e.csv"] None in
  let polars := main true held None in
  let pandas := main false held None in
  result polars = Exited 1
  /\ existsb is_diagnostic (trace polars) = false
  /\ reads (trace polars) = ["a.csv"; "c.csv"; "e.csv"]%string
  /\ In (Print (MsgFailed FullDisk.no_space)) (trace polars)
  /\ output polars = Some (terminated ["id,val"; "1,x"; "2,y"]%string ++ "3")%string
  /\ result pandas = Exited 1
  /\ In (Print (MsgErrorReading "c.csv" FullDisk.no_space)) (trace pandas)
  /\ reads (trace pandas) = ["a.csv"; "c.csv"]%string
  /\ output pandas = Some (terminated ["id,val"; "1,x"; "2,y"]%string ++ "3")%string.
Proof.
  cbv zeta. repeat split; try reflexivity; vm_compute; tauto.
Qed.

(** X18.  Take a run of [main] that reaches the strategy (the input
    files are found; the output file is absent or the overwrite is
    confirmed) and in which the files [before] are read and written and
    the turn of the next file [f] raises [e] inside the [try] of the
    loop: its read raises, or its write does in the call that writes
    (under Pandas every error of the write, under Polars those that the
    handle does not hold back).  Then the strategy lets [e] through
    from any output file, and the run ends with status 1; the last two
    lines printed are the diagnostic that names [f] and the failure
    line of [main]; the files read are those of [before] and [f], none
    of [after]; and no line of the summary is printed. *)
Theorem error_aborts_run (USE_POLARS : bool) (h : Host) (names : list string)
    (before after : list string) (f : string) (e : Exn) (out : option string) :
  listing h = Some names ->
  sorted (glob_csv names) = before ++ f :: after ->
  Forall (sound h) before ->
  raised_in_step USE_POLARS h f = Some e ->
  out = None \/ (exists line, stdin h = Some line /\ lower line = "y"%string) ->
  let strategy := if USE_POLARS then combine_csv_polars h (before ++ f :: after)
                  else combine_csv_pandas h (before ++ f :: after) in
  let r := main USE_POLARS h out in
  (forall out', result (strategy out') = Raised e)
  /\ result r = Exited 1
  /\ exit_status (result r) = 1
  /\ (exists pre, trace r = pre ++ [Print (MsgErrorReading f e); Print (MsgFailed e)])
  /\ reads (trace r) = before ++ [f]
  /\ existsb is_summary (trace r) = false.
Proof.
  intros Hl Hsorted Hsound Hf Hok. cbv zeta.
  split.
  { intros out'.
    destruct (strategy_abort USE_POLARS h before after f e Hsound Hf out')
      as (pre & o & Heq & _). now rewrite Heq. }
  assert (Hne : sorted (glob_csv names) <> []).
  { rewrite Hsorted. now destruct before. }
  rewrite (main_run USE_POLARS h names out Hl Hne Hok). cbv zeta.
  rewrite Hsorted.
  destruct (strategy_abort USE_POLARS h before after f e Hsound Hf out)
    as (pre & o & Heq & Hreads & Hsum).
  rewrite Heq. cbn [result output trace exit_status].
  destruct (opening_plain USE_POLARS (length (before ++ f :: after)) out)
    as [Hor Hos].
  repeat split.
  - exists (opening USE_POLARS (length (before ++ f :: after)) out ++ pre).
    now rewrite <- !app_assoc.
  - rewrite !reads_app, Hor, Hreads. simpl. now rewrite !app_nil_r.
  - rewrite !existsb_app, Hos, Hsum. reflexivity.
Qed.

(** X18 on a directory whose second CSV file cannot be read, the
    overwrite confirmed with [Y], under the Polars strategy. *)
Lemma error_aborts_run_witness :
  let h := Sample.host ["c.csv"; "notes.txt"; "bad.csv"; "a.csv"] (Some "Y"%string) in
  let r := main true h (Some "old"%string) in
  (forall out', result (combine_csv_polars h ["a.csv"; "bad.csv"; "c.csv"]%string out')
                = Raised (Exception "cannot read"))
  /\ result r = Exited 1
  /\ exit_status (result r) = 1
  /\ (exists pre,
        trace r = pre ++ [Print (MsgErrorReading "bad.csv" (Exception "cannot read"));
                          Print (MsgFailed (Exception "cannot read"))])
  /\ reads (trace r) = ["a.csv"; "bad.csv"]%string
  /\ existsb is_summary (trace r) = false.
Proof.
  apply (error_aborts_run true
           (Sample.host ["c.csv"; "notes.txt"; "bad.csv"; "a.csv"] (Some "Y"%string))
           ["c.csv"; "notes.txt"; "bad.csv"; "a.csv"]%string
           ["a.csv"%string] ["c.csv"%string] "bad.csv"
           (Exception "cannot read") (Some "old"%string)).
  - reflexivity.
  - reflexivity.
  - repeat constructor. now exists Sample.a_csv.
  - reflexivity.
  - right. exists "Y"%string. split; reflexivity.
Defined.

(** C6.  When the input directory does not exist, or holds no file
    whose name ends in [.csv], [main] prints one diagnostic and exits
    with status 1: nothing is asked, no file is read, and the output
    file is as it was, so none is created. *)
Theorem no_input_exits_1 (USE_POLARS : bool) (h : Host) (out : option string) :
  listing h = None \/ (exists names, listing h = Some names /\ glob_csv names = []) ->
  main USE_POLARS h out
  = mkRun (Exited 1) out
      [Print match listing h with
             | None => MsgNoDirectory
             | Some _ => MsgNoCsvFiles
             end].
Proof.
  intros [Hl | (names & Hl & Hg)]; unfold main; rewrite Hl.
  - reflexivity.
  - rewrite Hg. reflexivity.
Qed.

(** C6 on a directory without a name that ends in [.csv]. *)
Lemma no_input_exits_1_witness :
  (exists names,
      listing (Sample.host ["notes.txt"; "data.csv.bak"] None) = Some names
      /\ glob_csv names = [])
  /\ main true (Sample.host ["notes.txt"; "data.csv.bak"] None) None
     = mkRun (Exited 1) None [Print MsgNoCsvFiles].
Proof.
  assert (H : exists names,
             listing (Sample.host ["notes.txt"; "data.csv.bak"] None) = Some names
             /\ glob_csv names = []).
  { exists ["notes.txt"; "data.csv.bak"]%string. split; reflexivity. }
  split; [exact H|].
  exact (no_input_exits_1 true (Sample.host ["notes.txt"; "data.csv.bak"] None) None
           (or_intror H)).
Defined.

(** C7.  The overwrite question is asked once the input files are
    found and the output file exists.  When the response does not lower
    to [y], the run consists of the question and the line
    "Operation cancelled.", it exits with status 0, no input file is
    read and the output file keeps its content. *)
Theorem declined_overwrite (USE_POLARS : bool) (h : Host) (names : list string)
    (text line : string) :
  listing h = Some names ->
  glob_csv names <> [] ->
  stdin h = Some line ->
  lower line <> "y"%string ->
  let r := main USE_POLARS h (Some text) in
  r = mkRun (Exited 0) (Some text) [Ask; Print MsgCancelled]
  /\ exit_status (result r) = 0
  /\ reads (trace r) = []
  /\ existsb touches (trace r) = false.
Proof.
  intros Hl Hg Hs Hy. cbv zeta.
  rewrite (main_cancelled USE_POLARS h names text line Hl Hg Hs Hy).
  repeat split.
Qed.

(** C7 with the response [yes]. *)
Lemma declined_overwrite_witness :
  let h := Sample.host ["a.csv"; "c.csv"] (Some "yes"%string) in
  let r := main false h (Some "kept"%string) in
  lower "yes" <> "y"%string
  /\ r = mkRun (Exited 0) (Some "kept"%string) [Ask; Print MsgCancelled]
  /\ exit_status (result r) = 0
  /\ reads (trace r) = []
  /\ existsb touches (trace r) = false.
Proof.
  cbv zeta.
  assert (Hy : lower "yes" <> "y"%string) by (vm_compute; discriminate).
  split; [exact Hy|].
  apply (declined_overwrite false (Sample.host ["a.csv"; "c.csv"] (Some "yes"%string))
           ["a.csv"; "c.csv"]%string "kept" "yes").
  - reflexivity.
  - vm_compute. discriminate.
  - reflexivity.
  - exact Hy.
Defined.

(** C8.  Two runs with the same engine, no output file at the start,
    and the same input files (the same names, in whatever order the
    operating system lists them, and the same outcome of reading and
    writing each) are the same run: the same output file, the same
    status, the same trace.  What is typed on the console plays no
    part. *)
Theorem main_deterministic (USE_POLARS : bool) (h1 h2 : Host)
    (names1 names2 : list string) :
  listing h1 = Some names1 ->
  listing h2 = Some names2 ->
  Permutation names1 names2 ->
  (forall name, read_csv h1 name = read_csv h2 name) ->
  (forall name, write_error h1 name = write_error h2 name) ->
  main USE_POLARS h1 None = main USE_POLARS h2 None.
Proof.
  intros Hl1 Hl2 Hperm Hread Hwrite. unfold main. rewrite Hl1, Hl2.
  rewrite (sorted_Permutation _ _ (glob_csv_Permutation _ _ Hperm)).
  destruct (sorted (glob_csv names2)) as [|first later]; [reflexivity|].
  unfold bind, try_except, output_exists, print, emit, ret.
  destruct USE_POLARS; cbn beta iota.
  - now rewrite (combine_csv_polars_same h1 h2 Hread Hwrite).
  - now rewrite (combine_csv_pandas_same h1 h2 Hread Hwrite).
Qed.

(** C8 on two listings of the same three files. *)
Lemma main_deterministic_witness :
  Permutation ["c.csv"; "a.csv"; "b.csv"]%string ["a.csv"; "b.csv"; "c.csv"]%string
  /\ main true (Sample.host ["c.csv"; "a.csv"; "b.csv"] (Some "n"%string)) None
     = main true (Sample.host ["a.csv"; "b.csv"; "c.csv"] None) None.
Proof.
  assert (HP : Permutation ["c.csv"; "a.csv"; "b.csv"]%string
                           ["a.csv"; "b.csv"; "c.csv"]%string).
  { apply Permutation_trans with ["a.csv"; "c.csv"; "b.csv"]%string.
    - apply perm_swap.
    - apply perm_skip, perm_swap. }
  split; [exact HP|].
  apply (main_deterministic true
           (Sample.host ["c.csv"; "a.csv"; "b.csv"] (Some "n"%string))
           (Sample.host ["a.csv"; "b.csv"; "c.csv"] None)
           ["c.csv"; "a.csv"; "b.csv"]%string ["a.csv"; "b.csv"; "c.csv"]%string).
  - reflexivity.
  - reflexivity.
  - exact HP.
  - reflexivity.
  - reflexivity.
Defined.

(** C9.  When the overwrite question is asked, the strategy starts if
    and only if the response is [y] or [Y]; with any other response the
    run consists of the question and the line "Operation cancelled.",
    and it exits with status 0, the output file as it was. *)
Theorem overwrite_only_on_y (USE_POLARS : bool) (h : Host) (names : list string)
    (text line : string) :
  listing h = Some names ->
  glob_csv names <> [] ->
  stdin h = Some line ->
  let n := length (sorted (glob_csv names)) in
  let r := main USE_POLARS h (Some text) in
  (In (Print (MsgCombining n (if USE_POLARS then Polars else Pandas))) (trace r)
   <-> line = "y"%string \/ line = "Y"%string)
  /\ (~ (line = "y"%string \/ line = "Y"%string) ->
      r = mkRun (Exited 0) (Some text) [Ask; Print MsgCancelled]
      /\ exit_status (result r) = 0).
Proof.
  intros Hl Hg Hs. cbv zeta.
  destruct (String.eqb_spec (lower line) "y") as [Hy|Hy].
  - pose proof (proj1 (lower_is_y line) Hy) as Hline.
    split; [|intros Hno; contradiction].
    split; [intros _; exact Hline | intros _].
    assert (Hne : sorted (glob_csv names) <> []).
    { intros E. apply (proj1 (sorted_nil_iff _)) in E. contradiction. }
    rewrite (main_run USE_POLARS h names (Some text) Hl Hne
               (or_intror (ex_intro _ line (conj Hs Hy)))).
    cbv zeta.
    destruct (strategy_started USE_POLARS h (sorted (glob_csv names)) (Some text))
      as [rest Hrest].
    destruct (result _); [destruct (output _)|..]; cbn [trace];
      apply in_or_app; right; rewrite Hrest; left; reflexivity.
  - rewrite (main_cancelled USE_POLARS h names text line Hl Hg Hs Hy).
    split.
    + split.
      * cbn [trace]. intros [H|[H|[]]]; discriminate.
      * intros Hline. apply lower_is_y in Hline. contradiction.
    + intros _. split; reflexivity.
Qed.

(** C9 with the response [Y]. *)
Lemma overwrite_only_on_y_witness :
  let h := Sample.host ["a.csv"; "c.csv"] (Some "Y"%string) in
  let r := main true h (Some "old"%string) in
  (In (Print (MsgCombining 2 Polars)) (trace r)
   <-> "Y"%string = "y"%string \/ "Y"%string = "Y"%string)
  /\ (~ ("Y"%string = "y"%string \/ "Y"%string = "Y"%string) ->
      r = mkRun (Exited 0) (Some "old"%string) [Ask; Print MsgCancelled]
      /\ exit_status (result r) = 0).
Proof.
  apply (overwrite_only_on_y true (Sample.host ["a.csv"; "c.csv"] (Some "Y"%string))
           ["a.csv"; "c.csv"]%string "old" "Y").
  - reflexivity.
  - vm_compute. discriminate.
  - reflexivity.
Defined.

(** C10.  When the first file cannot be read, the Polars strategy has
    opened the output file before the read, so the file is left empty
    whatever it held; the Pandas strategy has written nothing, so the
    output file is as it was.  Both let the exception through after the
    diagnostic. *)
Theorem first_file_unreadable (h : Host) (f : string) (later : list string)
    (e : Exn) (out : option string) :
  read_csv h f = inl e ->
  let n := length (f :: later) in
  combine_csv_polars h (f :: later) out
  = mkRun (Raised e) (Some EmptyString)
      [Print (MsgCombining n Polars); Print MsgOutputFile; Print MsgRule;
       OpenW; Print (MsgReading 1 n f); Read f; Print (MsgErrorReading f e)]
  /\ combine_csv_pandas h (f :: later) out
     = mkRun (Raised e) out
         [Print (MsgCombining n Pandas); Print MsgOutputFile; Print MsgRule;
          Print (MsgReading 1 n f); Read f; Print (MsgErrorReading f e)].
Proof.
  intros Hr. cbv zeta.
  assert (Hp : raised_in_step true h f = Some e)
    by (unfold raised_in_step; now rewrite Hr).
  assert (Hq : raised_in_step false h f = Some e)
    by (unfold raised_in_step; now rewrite Hr).
  assert (Hc : counted h f = []) by (unfold counted; now rewrite Hr).
  rewrite combine_csv_polars_run, combine_csv_pandas_run. cbv zeta.
  rewrite (polars_loop_raises h _ 1 f later e 0 None _ Hp).
  cbn [pandas_loop].
  rewrite (bind_raised _ _ _ _ _ _ (pandas_step_raises h _ 1 f e 0 true _ Hq)).
  unfold polars_left, pandas_left, leaving. rewrite Hr, Hc. split; reflexivity.
Qed.

(** C10 on [bad.csv] followed by [c.csv], the output file holding [old]. *)
Lemma first_file_unreadable_witness :
  let h := Sample.host ["bad.csv"; "c.csv"] None in
  read_csv h "bad.csv" = inl (Exception "cannot read")
  /\ output (combine_csv_polars h ["bad.csv"; "c.csv"]%string (Some "old"%string))
     = Some EmptyString
  /\ output (combine_csv_pandas h ["bad.csv"; "c.csv"]%string (Some "old"%string))
     = Some "old"%string.
Proof.
  cbv zeta. split; [reflexivity|].
  destruct (first_file_unreadable (Sample.host ["bad.csv"; "c.csv"] None)
              "bad.csv" ["c.csv"%string] (Exception "cannot read")
              (Some "old"%string) eq_refl) as [Hp Hq].
  rewrite Hp, Hq. split; reflexivity.
Defined.


(** * Further properties of the script *)

(** ** File discovery (line 135) *)












(** ** Header suppression of the Polars strategy (lines 60 to 63) *)

Lemma rstrip_empty (s : string) : rstrip s = EmptyString -> all_space s = true.
Proof.
  induction s as [|c s IH]; simpl; [reflexivity|].
  destruct (rstrip s) eqn:E; [|discriminate].
  destruct (isspace c); [intros _; now apply IH | discriminate].
Qed.

Lemma rstrip_app_space (s w : string) :
  all_space w = true -> rstrip (s ++ w) = rstrip s.
Proof.
  intros Hw. induction s as [|c s IH]; simpl.
  - now apply rstrip_all_space.
  - now rewrite IH.
Qed.

Lemma rstrip_app_body (a b : string) :
  all_space b = false -> rstrip (a ++ b) = (a ++ rstrip b)%string.
Proof.
  intros Hb. induction a as [|c a IH]; simpl; [reflexivity|].
  rewrite IH. destruct (a ++ rstrip b)%string eqn:E; [|reflexivity].
  destruct a; simpl in E; [|discriminate].
  apply rstrip_empty in E. congruence.
Qed.

Lemma all_space_app (a b : string) :
  all_space (a ++ b) = all_space a && all_space b.
Proof.
  induction a as [|c a IH]; simpl; [reflexivity|].
  now rewrite IH, andb_assoc.
Qed.

(** X2.  For a file after the first whose header line is not blank
    and whose data rows are not all white space, the Polars strategy
    writes the data rows joined by line breaks, stripped of the white
    space at their end, and one line break: white space that ends the
    last row is lost. *)
Theorem header_suppression_strips (df : DataFrame) :
  has_newline (header_line df) = false ->
  all_space (header_line df) = false ->
  all_space (join nl (row_lines df)) = false ->
  polars_rest df = (rstrip (join nl (row_lines df)) ++ nl)%string.
Proof.
  intros Hnl Hsp Hbody.
  assert (Hne : row_lines df <> []).
  { intros E. rewrite E in Hbody. discriminate. }
  unfold polars_rest, write_csv.
  rewrite (terminated_join _ Hne). unfold strip.
  rewrite (lstrip_app _ _ Hsp).
  set (first := lstrip (header_line df)).
  set (body := join nl (row_lines df)) in *.
  replace (first ++ nl ++ body ++ nl)%string
    with ((first ++ nl) ++ (body ++ nl))%string by now rewrite !app_assoc_s.
  rewrite rstrip_app_body.
  - rewrite (rstrip_app_space body nl eq_refl), app_assoc_s.
    rewrite split_lines_first by now apply lstrip_has_newline.
    cbn [skipn]. now rewrite join_split_lines.
  - rewrite all_space_app, Hbody. reflexivity.
Qed.

(** X2 on a table whose last cell ends with two spaces. *)
Lemma header_suppression_strips_witness :
  let df := mkDataFrame ["id"; "val"] [["1"; "x"]; ["2"; "y  "]] in
  terminated (row_lines df) = terminated ["1,x"; "2,y  "]%string
  /\ polars_rest df = terminated ["1,x"; "2,y"]%string.
Proof.
  cbv zeta. split; [reflexivity|].
  rewrite (header_suppression_strips
             (mkDataFrame ["id"; "val"] [["1"; "x"]; ["2"; "y  "]])
             eq_refl eq_refl eq_refl).
  reflexivity.
Defined.

(** X3 on the sample file that holds its header only. *)
Lemma polars_rest_empty_witness :
  rows Sample.b_csv = [] /\ polars_rest Sample.b_csv = nl.
Proof.
  split; [reflexivity|].
  exact (polars_rest_empty Sample.b_csv eq_refl eq_refl eq_refl).
Defined.

(** ** The loops on any host *)

Lemma readings_app (a b : list event) : readings (a ++ b) = readings a ++ readings b.
Proof.
  induction a as [|ev a IH]; simpl; [reflexivity|].
  destruct ev as [m| | | | |]; try exact IH.
  destruct m; simpl; now rewrite ?IH.
Qed.

Lemma row_counts_app (a b : list event) :
  row_counts (a ++ b) = row_counts a ++ row_counts b.
Proof.
  induction a as [|ev a IH]; simpl; [reflexivity|].
  destruct ev as [m| | | | |]; try exact IH.
  destruct m; simpl; now rewrite ?IH.
Qed.

Lemma counted_quiet (h : Host) (name : string) :
  readings (counted h name) = [] /\ filter is_ask (counted h name) = [].
Proof. unfold counted. now destruct (read_csv h name). Qed.

Lemma loop_shape_nil (h : Host) (n i total_rows : nat) (out : option string) :
  loop_shape h n i [] total_rows (mkRun (Normal total_rows) out []).
Proof.
  unfold loop_shape, total_height. simpl. rewrite Nat.add_0_r.
  split; [exists []; split; [reflexivity | reflexivity]|].
  repeat split. constructor.
Qed.

(** The shape goes from the rest of the list to the list when nothing
    is raised in the turn of its first file. *)
Lemma loop_shape_passes (h : Host) (n i : nat) (f : string) (later : list string)
    (t : nat) (w : event) (r : run nat) :
  (forall t', result r = Normal t' -> sound h f) ->
  is_ask w = false -> reads [w] = [] -> readings [w] = [] -> row_counts [w] = [] ->
  loop_shape h n (S i) later (t + height (table h f)) r ->
  loop_shape h n i (f :: later) t
    (mkRun (result r) (output r)
       ([Print (MsgReading i n f); Read f; Print (MsgRowCount (height (table h f))); w]
          ++ trace r)).
Proof.
  intros Hf Hask Hreads Hreadings Hcounts ((rest & Hrest & Hnormal) & Hres & Hprog & Hq).
  unfold loop_shape. cbn [result trace].
  replace ([Print (MsgReading i n f); Read f;
            Print (MsgRowCount (height (table h f))); w] ++ trace r)
    with ([Print (MsgReading i n f); Read f;
           Print (MsgRowCount (height (table h f)))] ++ [w] ++ trace r)
    by reflexivity.
  rewrite !reads_app, !readings_app, !row_counts_app, !filter_app.
  rewrite Hreads, Hreadings, Hcounts. cbn [reads readings row_counts filter is_ask app].
  rewrite Hask. cbn [app].
  split; [|split; [|split]].
  - exists rest. split; [now rewrite <- Hrest | exact Hnormal].
  - destruct (result r) as [t'|e|s]; [|exact I|exact Hres].
    destruct Hres as (Hall & Ht & Hrc). repeat split.
    + constructor; [now apply (Hf t') | exact Hall].
    + unfold total_height, list_sum in *. cbn [map fold_right]. lia.
    + cbn [map]. now rewrite Hrc.
  - cbn [enumerated]. now rewrite Hprog.
  - exact Hq.
Qed.

(** The shape of a run that stops at the first file of the list. *)
Lemma loop_shape_failure (h : Host) (n i : nat) (f : string) (later : list string)
    (t : nat) (e leaves : Exn) (out : option string) :
  loop_shape h n i (f :: later) t
    (mkRun (Raised leaves) out
       (Print (MsgReading i n f) :: Read f
          :: counted h f ++ [Print (MsgErrorReading f e)])).
Proof.
  destruct (counted_plain h f) as (Hr & _ & _).
  destruct (counted_quiet h f) as (Hp & Hq).
  unfold loop_shape. cbn [result trace reads readings filter is_ask].
  rewrite reads_app, readings_app, filter_app, Hr, Hp, Hq.
  split; [|repeat split].
  exists later. split; [reflexivity | discriminate].
Qed.

Lemma loop_shape_closed (h : Host) (n i total_rows : nat) (e : Exn)
    (out : option string) :
  loop_shape h n i [] total_rows (mkRun (Raised e) out []).
Proof.
  unfold loop_shape. simpl.
  split; [exists []; split; [reflexivity | discriminate]|]. repeat split.
Qed.

Lemma held_back_held (h : Host) (name : string) (e : Exn) :
  exists held, held_back h name (Some e) = Some held.
Proof. unfold held_back. destruct (write_error h name); now eexists. Qed.

(** With a handle that holds an error back the with-block never ends
    normally. *)
Lemma polars_loop_shape (h : Host) (n : nat) (csv_files : list string) :
  forall i total_rows f_out out,
    let r := polars_loop h n i csv_files total_rows f_out out in
    loop_shape h n i csv_files total_rows r
    /\ match f_out, result r with
       | Some _, Normal _ => False
       | _, _ => True
       end.
Proof.
  induction csv_files as [|f later IH]; intros i t f_out out; cbv zeta.
  - destruct f_out as [e|]; simpl.
    + split; [apply loop_shape_closed | exact I].
    + split; [apply loop_shape_nil | exact I].
  - destruct (raised_in_step true h f) as [e|] eqn:F.
    + rewrite (polars_loop_raises h n i f later e t f_out out F).
      split; [apply loop_shape_failure | now destruct f_out].
    + rewrite (polars_loop_passes h n i f later t f_out out F). cbv zeta.
      destruct (IH (S i) (t + height (table h f)) (held_back h f f_out)
                  (polars_left h i f f_out out)) as [Hshape Hheld].
      cbv zeta in Hshape, Hheld. cbn [result]. split.
      * apply loop_shape_passes; try reflexivity; [|exact Hshape].
        intros t' Ht'. rewrite Ht' in Hheld.
        split; [exists (table h f); now apply (not_raised_readable true)|].
        unfold held_back in Hheld.
        destruct (write_error h f); [contradiction | reflexivity].
      * destruct f_out as [e0|]; [|exact I].
        destruct (held_back_held h f e0) as [held Hb].
        rewrite Hb in Hheld |- *. exact Hheld.
Qed.

Lemma pandas_loop_shape (h : Host) (n : nat) (csv_files : list string) :
  forall i total_rows first_file out,
    loop_shape h n i csv_files total_rows
      (pandas_loop h n i csv_files total_rows first_file out).
Proof.
  induction csv_files as [|f later IH]; intros i t ff out.
  - apply loop_shape_nil.
  - cbn [pandas_loop]. destruct (raised_in_step false h f) as [e|] eqn:F.
    + rewrite (bind_raised _ _ _ _ _ _ (pandas_step_raises h n i f e t ff out F)).
      apply loop_shape_failure.
    + apply pandas_not_raised_sound in F.
      pose proof (sound_table h f F) as Hr. pose proof F as [_ Hw].
      rewrite (bind_normal _ _ _ _ _ _
                 (pandas_step_sound h n i f _ t ff out Hr Hw)).
      cbn [fst snd]. now apply loop_shape_passes.
Qed.

(** The files read are those up to the first in whose turn something
    is raised, and then the loop ends with an exception. *)
Lemma polars_loop_stops (h : Host) (n : nat) (csv_files : list string) :
  forall i total_rows f_out out,
    let r := polars_loop h n i csv_files total_rows f_out out in
    reads (trace r) = through_first (stops true h) csv_files
    /\ (existsb (stops true h) csv_files = true -> exists e, result r = Raised e).
Proof.
  induction csv_files as [|f later IH]; intros i t f_out out; cbv zeta.
  - split; [now destruct f_out | discriminate].
  - cbn [through_first existsb]. unfold stops at 1 3.
    destruct (raised_in_step true h f) as [e|] eqn:F.
    + rewrite (polars_loop_raises h n i f later e t f_out out F).
      destruct (counted_plain h f) as (Hr & _).
      cbn [trace reads result]. rewrite reads_app, Hr.
      split; [reflexivity | intros _; now eexists].
    + rewrite (polars_loop_passes h n i f later t f_out out F). cbv zeta.
      destruct (IH (S i) (t + height (table h f)) (held_back h f f_out)
                  (polars_left h i f f_out out)) as [Hreads Hraised].
      cbn [trace result reads app orb]. now rewrite Hreads.
Qed.

Lemma pandas_loop_stops (h : Host) (n : nat) (csv_files : list string) :
  forall i total_rows first_file out,
    let r := pandas_loop h n i csv_files total_rows first_file out in
    reads (trace r) = through_first (stops false h) csv_files
    /\ (if existsb (stops false h) csv_files
        then exists e, result r = Raised e
        else exists t, result r = Normal t).
Proof.
  induction csv_files as [|f later IH]; intros i t ff out; cbv zeta.
  - split; [reflexivity | now eexists].
  - cbn [through_first existsb pandas_loop]. unfold stops at 1 3.
    destruct (raised_in_step false h f) as [e|] eqn:F.
    + rewrite (bind_raised _ _ _ _ _ _ (pandas_step_raises h n i f e t ff out F)).
      destruct (counted_plain h f) as (Hr & _).
      cbn [trace reads result orb]. rewrite reads_app, Hr.
      split; [reflexivity | now eexists].
    + apply pandas_not_raised_sound in F.
      pose proof (sound_table h f F) as Hr. pose proof F as [_ Hw].
      rewrite (bind_normal _ _ _ _ _ _
                 (pandas_step_sound h n i f _ t ff out Hr Hw)).
      cbn [fst snd].
      destruct (IH (S i) (t + height (table h f)) false
                  (if ff then Some (to_csv ff (table h f))
                   else appended out (to_csv ff (table h f)))) as [Hreads Hend].
      cbn [trace result reads app orb]. now rewrite Hreads.
Qed.

(** ** The strategies on any host *)

(** A strategy is its loop between the three lines that announce it
    and the summary. *)
Lemma strategy_shape (USE_POLARS : bool) (h : Host) (csv_files : list string)
    (out : option string) :
  exists (head : list event) (loop : run nat),
    strategy USE_POLARS h csv_files out
    = mkRun (settle (result loop)) (output loop)
        (head ++ trace loop ++ summary_of (length csv_files) (result loop))
    /\ loop_shape h (length csv_files) 1 csv_files 0 loop
    /\ reads head = [] /\ readings head = [] /\ row_counts head = []
    /\ filter is_ask head = [].
Proof.
  unfold strategy. destruct USE_POLARS.
  - exists [Print (MsgCombining (length csv_files) Polars); Print MsgOutputFile;
            Print MsgRule; OpenW],
           (polars_loop h (length csv_files) 1 csv_files 0 None (Some EmptyString)).
    split; [apply combine_csv_polars_run|].
    split; [apply polars_loop_shape|]. repeat split.
  - exists [Print (MsgCombining (length csv_files) Pandas); Print MsgOutputFile;
            Print MsgRule],
           (pandas_loop h (length csv_files) 1 csv_files 0 true out).
    split; [apply combine_csv_pandas_run|].
    split; [apply pandas_loop_shape|]. repeat split.
Qed.

Lemma summary_of_quiet (n : nat) (o : outcome nat) :
  reads (summary_of n o) = [] /\ readings (summary_of n o) = []
  /\ row_counts (summary_of n o) = [] /\ filter is_ask (summary_of n o) = [].
Proof. destruct o; repeat split. Qed.

Lemma through_first_all (p : string -> bool) (names : list string) :
  existsb p names = false -> through_first p names = names.
Proof.
  induction names as [|name later IH]; [reflexivity|].
  cbn [existsb through_first]. intros H. apply orb_false_iff in H as [Hp H].
  now rewrite Hp, IH.
Qed.

(** X4.  Whatever the files hold, a strategy reads them in the order
    of the list, each once, up to and including the first one in whose
    turn an exception is raised inside the [try] of the loop: a read
    that fails, or a write that raises in the call (under Pandas every
    failed write; under Polars not the one whose error the handle
    holds back until it is closed).  That file is the last one read
    and the strategy ends with an exception; when there is no such file
    all the files are read, and the strategy does not exit the process
    itself. *)
Theorem reads_in_order (USE_POLARS : bool) (h : Host) (csv_files : list string)
    (out : option string) :
  let r := strategy USE_POLARS h csv_files out in
  reads (trace r) = through_first (stops USE_POLARS h) csv_files
  /\ (if existsb (stops USE_POLARS h) csv_files
      then exists e, result r = Raised e
      else reads (trace r) = csv_files /\ forall s, result r <> Exited s).
Proof.
  cbv zeta.
  assert (Hloop : exists (head : list event) (loop : run nat),
             strategy USE_POLARS h csv_files out
             = mkRun (settle (result loop)) (output loop)
                 (head ++ trace loop ++ summary_of (length csv_files) (result loop))
             /\ reads head = []
             /\ reads (trace loop) = through_first (stops USE_POLARS h) csv_files
             /\ (existsb (stops USE_POLARS h) csv_files = true ->
                 exists e, result loop = Raised e)
             /\ forall s, result loop <> Exited s).
  { unfold strategy. destruct USE_POLARS.
    - exists [Print (MsgCombining (length csv_files) Polars); Print MsgOutputFile;
              Print MsgRule; OpenW],
             (polars_loop h (length csv_files) 1 csv_files 0 None (Some EmptyString)).
      destruct (polars_loop_stops h (length csv_files) csv_files 1 0 None
                  (Some EmptyString)) as [Hreads Hraised].
      destruct (polars_loop_shape h (length csv_files) csv_files 1 0 None
                  (Some EmptyString)) as [(_ & Hres & _) _].
      split; [apply combine_csv_polars_run|]. split; [reflexivity|].
      split; [exact Hreads|]. split; [exact Hraised|].
      intros s Hs. now rewrite Hs in Hres.
    - exists [Print (MsgCombining (length csv_files) Pandas); Print MsgOutputFile;
              Print MsgRule],
             (pandas_loop h (length csv_files) 1 csv_files 0 true out).
      destruct (pandas_loop_stops h (length csv_files) csv_files 1 0 true out)
        as [Hreads Hend].
      destruct (pandas_loop_shape h (length csv_files) csv_files 1 0 true out)
        as (_ & Hres & _).
      split; [apply combine_csv_pandas_run|]. split; [reflexivity|].
      split; [exact Hreads|]. split.
      + intros Hstops. now rewrite Hstops in Hend.
      + intros s Hs. now rewrite Hs in Hres. }
  destruct Hloop as (head & loop & Heq & Hh & Hreads & Hraised & Hexit).
  destruct (summary_of_quiet (length csv_files) (result loop)) as (Hs & _).
  rewrite Heq. cbn [result trace].
  rewrite !reads_app, Hh, Hs, app_nil_r. cbn [app].
  split; [exact Hreads|].
  destruct (existsb (stops USE_POLARS h) csv_files) eqn:Hstops.
  - destruct (Hraised eq_refl) as [e He]. exists e. now rewrite He.
  - split; [rewrite Hreads; now apply through_first_all|].
    intros s. destruct (result loop) as [t|e|s'] eqn:Hres; cbn [settle];
      try discriminate.
    now destruct (Hexit s').
Qed.

(** X4 on a disk that fills up while the rows of the second of three
    files are written, the handle of the Polars strategy holding the
    error back: Pandas stops at the second file, Polars reads all
    three. *)
Lemma reads_in_order_witness :
  let h := FullDisk.host true ["a.csv"; "c.csv"; "e.csv"] None in
  reads (trace (strategy false h ["a.csv"; "c.csv"; "e.csv"]%string None))
  = ["a.csv"; "c.csv"]%string
  /\ reads (trace (strategy true h ["a.csv"; "c.csv"; "e.csv"]%string None))
     = ["a.csv"; "c.csv"; "e.csv"]%string.
Proof.
  cbv zeta. split.
  - exact (proj1 (reads_in_order false (FullDisk.host true ["a.csv"; "c.csv"; "e.csv"] None)
                    ["a.csv"; "c.csv"; "e.csv"]%string None)).
  - exact (proj1 (reads_in_order true (FullDisk.host true ["a.csv"; "c.csv"; "e.csv"] None)
                    ["a.csv"; "c.csv"; "e.csv"]%string None)).
Defined.

(** X5.  Each progress line [[i/n] Reading name...] carries the
    position [i], counted from 1, of the file it names and the length
    [n] of the list, on every host and also in a run that fails. *)
Theorem progress_lines (USE_POLARS : bool) (h : Host) (csv_files : list string)
    (out : option string) :
  let r := strategy USE_POLARS h csv_files out in
  readings (trace r) = enumerated (length csv_files) 1 (reads (trace r)).
Proof.
  cbv zeta.
  destruct (strategy_shape USE_POLARS h csv_files out)
    as (head & loop & Heq & (_ & _ & Hprog & _) & Hh & Hg & _).
  destruct (summary_of_quiet (length csv_files) (result loop)) as (Hs & Hs' & _).
  rewrite Heq. cbn [trace].
  now rewrite !reads_app, !readings_app, Hh, Hg, Hs, Hs', !app_nil_r.
Qed.

(** X6.  A strategy ends normally only if every file of the list is
    read and written without error; the row counts it has printed are
    those of the files, in order, and the total of the summary is their
    sum. *)
Theorem success_means_sound (USE_POLARS : bool) (h : Host) (csv_files : list string)
    (out : option string) :
  let r := strategy USE_POLARS h csv_files out in
  result r = Normal tt ->
  Forall (sound h) csv_files
  /\ row_counts (trace r) = map (fun name => height (table h name)) csv_files
  /\ In (Print (MsgTotalRows (list_sum (row_counts (trace r))))) (trace r)
  /\ In (Print (MsgSuccess (length csv_files))) (trace r).
Proof.
  cbv zeta.
  destruct (strategy_shape USE_POLARS h csv_files out)
    as (head & loop & Heq & (_ & Hres & _) & _ & _ & Hc & _).
  rewrite Heq. cbn [result trace].
  destruct (result loop) as [t|e|s]; cbn [settle]; try discriminate.
  intros _. destruct Hres as (Hall & Ht & Hrc).
  rewrite !row_counts_app, Hc, Hrc. cbn [summary_of row_counts app].
  rewrite app_nil_r. fold (total_height h csv_files).
  split; [exact Hall|]. split; [reflexivity|]. split.
  - apply in_or_app. right. apply in_or_app. right.
    cbn [Nat.add] in Ht. subst t. right. right. left. reflexivity.
  - apply in_or_app. right. apply in_or_app. right. right. left. reflexivity.
Qed.

(** X6 on the three sample files under the Pandas strategy. *)
Lemma success_means_sound_witness :
  let h := Sample.host ["a.csv"; "b.csv"; "c.csv"] None in
  let r := strategy false h ["a.csv"; "b.csv"; "c.csv"] None in
  result r = Normal tt
  /\ Forall (sound h) ["a.csv"; "b.csv"; "c.csv"]%string
  /\ row_counts (trace r) = [2; 0; 1]
  /\ In (Print (MsgTotalRows 3)) (trace r)
  /\ In (Print (MsgSuccess 3)) (trace r).
Proof.
  cbv zeta. split; [reflexivity|].
  destruct (success_means_sound false (Sample.host ["a.csv"; "b.csv"; "c.csv"] None)
              ["a.csv"; "b.csv"; "c.csv"]%string None eq_refl)
    as (Hall & Hrc & Htotal & Hsuccess).
  split; [exact Hall|]. split; [exact Hrc|]. split; [exact Htotal | exact Hsuccess].
Defined.

(** ** What a strategy leaves in the output file *)

Section Growth.

Variable h : Host.
Variable n : nat.

(** A turn of a loop only adds at the end of the output file. *)
Lemma polars_left_grows (i : nat) (name : string) (f_out : handle) (text : string) :
  exists suffix,
    polars_left h i name f_out (Some text) = Some (text ++ suffix)%string.
Proof.
  unfold polars_left. destruct (read_csv h name) as [e|df].
  - exists EmptyString. now rewrite app_empty_r.
  - destruct f_out as [held|]; cbn [reaches appended].
    + exists EmptyString. now rewrite app_empty_r.
    + now eexists.
Qed.

Lemma pandas_left_grows (name : string) (text : string) :
  exists suffix,
    pandas_left h name false (Some text) = Some (text ++ suffix)%string.
Proof.
  unfold pandas_left. destruct (read_csv h name) as [e|df].
  - exists EmptyString. now rewrite app_empty_r.
  - cbv zeta. cbn [appended]. now eexists.
Qed.

(** The loops only add at the end of the output file. *)
Lemma polars_loop_grows (csv_files : list string) :
  forall i total_rows f_out text,
  exists suffix,
    output (polars_loop h n i csv_files total_rows f_out (Some text))
    = Some (text ++ suffix)%string.
Proof.
  induction csv_files as [|f later IH]; intros i t f_out text.
  - exists EmptyString. destruct f_out; simpl; now rewrite app_empty_r.
  - destruct (polars_left_grows i f f_out text) as [added Ha].
    destruct (raised_in_step true h f) as [e|] eqn:F.
    + rewrite (polars_loop_raises h n i f later e t f_out _ F).
      cbn [output]. rewrite Ha. now eexists.
    + rewrite (polars_loop_passes h n i f later t f_out _ F). cbv zeta.
      cbn [output]. rewrite Ha.
      destruct (IH (S i) (t + height (table h f)) (held_back h f f_out)
                  (text ++ added)%string) as [suffix Hs].
      rewrite Hs, app_assoc_s. now eexists.
Qed.

Lemma pandas_loop_grows (csv_files : list string) :
  forall i total_rows text,
  exists suffix,
    output (pandas_loop h n i csv_files total_rows false (Some text))
    = Some (text ++ suffix)%string.
Proof.
  induction csv_files as [|f later IH]; intros i t text.
  - exists EmptyString. simpl. now rewrite app_empty_r.
  - cbn [pandas_loop]. destruct (raised_in_step false h f) as [e|] eqn:F.
    + rewrite (bind_raised _ _ _ _ _ _ (pandas_step_raises h n i f e t false _ F)).
      cbn [output]. apply pandas_left_grows.
    + apply pandas_not_raised_sound in F.
      pose proof (sound_table h f F) as Hr. destruct F as [_ Hw].
      rewrite (bind_normal _ _ _ _ _ _
                 (pandas_step_sound h n i f _ t false (Some text) Hr Hw)).
      cbn [fst snd output appended].
      destruct (IH (S i) (t + height (table h f))
                  (text ++ to_csv false (table h f))%string) as [suffix Hs].
      rewrite Hs, app_assoc_s. now eexists.
Qed.



End Growth.

(** X7.  Once the first file is read and written, its header line and
    its rows head the output file and stay there, whatever happens with
    the later files: the output is the CSV text of the first file
    followed by what the later files add. *)
Theorem first_file_heads_output (USE_POLARS : bool) (h : Host) (first : string)
    (later : list string) (out : option string) :
  sound h first ->
  exists suffix,
    output (strategy USE_POLARS h (first :: later) out)
    = Some (write_csv (table h first) ++ suffix)%string.
Proof.
  intros Hfirst. pose proof (sound_table h first Hfirst) as Hr.
  destruct Hfirst as [_ Hw]. unfold strategy. destruct USE_POLARS.
  - rewrite combine_csv_polars_run. cbv zeta. cbn [output polars_loop].
    rewrite (bind_normal _ _ _ _ _ _
               (try_except_normal _ _ _ _ _ _
                  (polars_step_sound h _ 1 first _ 0 (Some EmptyString) Hr Hw))).
    cbn [fst snd output Nat.eqb appended String.append].
    apply polars_loop_grows.
  - rewrite combine_csv_pandas_run. cbv zeta. cbn [output pandas_loop].
    rewrite (bind_normal _ _ _ _ _ _
               (pandas_step_sound h _ 1 first _ 0 true out Hr Hw)).
    cbn [fst snd output]. rewrite to_csv_header.
    apply pandas_loop_grows.
Qed.

(** X7 on a list whose second file cannot be read. *)
Lemma first_file_heads_output_witness :
  let h := Sample.host ["a.csv"; "bad.csv"] None in
  sound h "a.csv"
  /\ exists suffix,
       output (strategy true h ["a.csv"; "bad.csv"]%string (Some "old"%string))
       = Some (write_csv (table h "a.csv") ++ suffix)%string.
Proof.
  cbv zeta.
  assert (Ha : sound (Sample.host ["a.csv"; "bad.csv"] None) "a.csv").
  { split; [exists Sample.a_csv|]; reflexivity. }
  split; [exact Ha|].
  exact (first_file_heads_output true (Sample.host ["a.csv"; "bad.csv"] None)
           "a.csv" ["bad.csv"%string] (Some "old"%string) Ha).
Defined.

(** X8.  The Polars strategy takes nothing from the output file it
    finds: its run is the same whatever the file held, and whether it
    existed or not; and it always leaves an output file, also when it
    fails and when the list is empty. *)
Theorem polars_ignores_prior_output (h : Host) (csv_files : list string)
    (out : option string) :
  combine_csv_polars h csv_files out = combine_csv_polars h csv_files None
  /\ exists text, output (combine_csv_polars h csv_files out) = Some text.
Proof.
  split; [now rewrite !combine_csv_polars_run|].
  rewrite combine_csv_polars_run. cbv zeta. cbn [output].
  destruct (polars_loop_grows h (length csv_files) csv_files 1 0 None EmptyString)
    as [suffix Hs].
  rewrite Hs. now eexists.
Qed.

(** X9.  When its first file is read and written, the Pandas strategy
    takes nothing from the output file it finds either: mode ['w']
    replaces the file. *)
Theorem pandas_replaces_prior_output (h : Host) (first : string)
    (later : list string) (out : option string) :
  sound h first ->
  combine_csv_pandas h (first :: later) out
  = combine_csv_pandas h (first :: later) None.
Proof.
  intros Hfirst. pose proof (sound_table h first Hfirst) as Hr.
  destruct Hfirst as [_ Hw].
  rewrite !combine_csv_pandas_run. cbv zeta. cbn [pandas_loop].
  rewrite (bind_normal _ _ _ _ _ _
             (pandas_step_sound h _ 1 first _ 0 true out Hr Hw)).
  rewrite (bind_normal _ _ _ _ _ _
             (pandas_step_sound h _ 1 first _ 0 true None Hr Hw)).
  reflexivity.
Qed.

(** X9 on two sample files, the output file holding [old]. *)
Lemma pandas_replaces_prior_output_witness :
  let h := Sample.host ["a.csv"; "c.csv"] None in
  sound h "a.csv"
  /\ combine_csv_pandas h ["a.csv"; "c.csv"]%string (Some "old"%string)
     = combine_csv_pandas h ["a.csv"; "c.csv"]%string None.
Proof.
  cbv zeta.
  assert (Ha : sound (Sample.host ["a.csv"; "c.csv"] None) "a.csv").
  { split; [exists Sample.a_csv|]; reflexivity. }
  split; [exact Ha|].
  exact (pandas_replaces_prior_output (Sample.host ["a.csv"; "c.csv"] None)
           "a.csv" ["c.csv"%string] (Some "old"%string) Ha).
Defined.



(** ** The entry point on any host *)

(** The run of [main] when the overwrite question meets the end of the
    input. *)
Lemma main_eof_run (USE_POLARS : bool) (h : Host) (names : list string)
    (text : string) :
  listing h = Some names ->
  sorted (glob_csv names) <> [] ->
  stdin h = None ->
  main USE_POLARS h (Some text)
  = mkRun (Raised (Exception "EOF when reading a line")) (Some text) [Ask].
Proof.
  intros Hl Hne Hs. unfold main. rewrite Hl.
  destruct (sorted (glob_csv names)) as [|first later]; [contradiction|].
  generalize (combine_csv_polars h (first :: later)).
  generalize (combine_csv_pandas h (first :: later)).
  intros pandas polars.
  unfold bind, output_exists, input, emit, ret, raise. now rewrite Hs.
Qed.

(** A strategy that ends normally on a list that is not empty leaves
    an output file. *)
Lemma strategy_normal_output (USE_POLARS : bool) (h : Host) (first : string)
    (later : list string) (out : option string) :
  result (strategy USE_POLARS h (first :: later) out) = Normal tt ->
  exists text, output (strategy USE_POLARS h (first :: later) out) = Some text.
Proof.
  intros Hn.
  destruct (strategy_shape USE_POLARS h (first :: later) out)
    as (head & loop & Heq & (_ & Hres & _) & _).
  rewrite Heq in Hn. cbn [result] in Hn.
  destruct (result loop) as [t|e|s]; try discriminate.
  destruct Hres as (Hall & _). inversion Hall as [|? ? Hfirst _]; subst.
  pose proof (sound_table h first Hfirst) as Hr. destruct Hfirst as [_ Hw].
  unfold strategy. destruct USE_POLARS.
  - rewrite combine_csv_polars_run. cbv zeta. cbn [output].
    destruct (polars_loop_grows h (length (first :: later)) (first :: later) 1 0
                None EmptyString) as [suffix Hs].
    rewrite Hs. now eexists.
  - rewrite combine_csv_pandas_run. cbv zeta. cbn [output pandas_loop].
    rewrite (bind_normal _ _ _ _ _ _
               (pandas_step_sound h _ 1 first _ 0 true out Hr Hw)).
    cbn [fst snd output].
    destruct (pandas_loop_grows h (length (first :: later)) later 2
                (0 + height (table h first)) (to_csv true (table h first)))
      as [suffix Hs].
    rewrite Hs. now eexists.
Qed.

Lemma main_cases (USE_POLARS : bool) (h : Host) (out : option string) :
  main_case USE_POLARS h out.
Proof.
  destruct (listing h) as [names|] eqn:Hl.
  - destruct (sorted (glob_csv names)) as [|first later] eqn:Hs.
    + apply (NoCsvFiles _ _ _ names Hl Hs).
      unfold main. now rewrite Hl, Hs.
    + assert (Hne : sorted (glob_csv names) <> []) by now rewrite Hs.
      assert (Hg : glob_csv names <> []).
      { intros E. rewrite E in Hs. discriminate. }
      destruct out as [text|].
      * destruct (stdin h) as [line|] eqn:Hi.
        -- destruct (String.eqb_spec (lower line) "y") as [Hy|Hy].
           ++ apply (Combined _ _ _ names Hl Hne). right. now exists line.
           ++ apply (Cancelled _ _ _ names text line Hl Hne eq_refl Hi Hy).
              now apply (main_cancelled USE_POLARS h names text line).
        -- apply (EndOfInput _ _ _ names text Hl Hne eq_refl Hi).
           now apply (main_eof_run USE_POLARS h names text).
      * apply (Combined _ _ _ names Hl Hne). now left.
  - apply (NoDirectory _ _ _ Hl). unfold main. now rewrite Hl.
Qed.

(** X11.  A run of [main] on input files that are all read and
    written (under the Polars strategy, those after the first holding
    tidy tables) ends with status 0; it leaves the concatenation of the
    files in the output file, has read every file once, in order, and
    its last three lines give the sum of the row counts, the output
    path and the size of the output file that was written. *)
Theorem successful_run (USE_POLARS : bool) (h : Host) (names : list string)
    (first : string) (later : list string) (out : option string) :
  listing h = Some names ->
  sorted (glob_csv names) = first :: later ->
  Forall (sound h) (first :: later) ->
  (if USE_POLARS then Forall (fun name => tidy (table h name) = true) later
   else True) ->
  out = None \/ (exists line, stdin h = Some line /\ lower line = "y"%string) ->
  let r := main USE_POLARS h out in
  let text := concatenation h (first :: later) in
  result r = Normal tt
  /\ exit_status (result r) = 0
  /\ output r = Some text
  /\ reads (trace r) = first :: later
  /\ exists pre,
       trace r = pre ++ [Print (MsgTotalRows (total_height h (first :: later)));
                         Print MsgOutput;
                         Print (MsgOutputSize (utf8_length text))].
Proof.
  intros Hl Hsorted Hall Htidy Hok. cbv zeta.
  assert (Hne : sorted (glob_csv names) <> []) by now rewrite Hsorted.
  assert (Hc : result (strategy USE_POLARS h (first :: later) out) = Normal tt
               /\ output (strategy USE_POLARS h (first :: later) out)
                  = Some (concatenation h (first :: later))
               /\ reads (trace (strategy USE_POLARS h (first :: later) out))
                  = first :: later).
  { unfold strategy. destruct USE_POLARS.
    - destruct (combine_csv_polars_tidy h first later out Hall Htidy)
        as (H1 & H2 & _ & H4). now repeat split.
    - destruct (combine_csv_pandas_sound h first later out Hall)
        as (H1 & H2 & _ & H4). now repeat split. }
  destruct Hc as (Hres & Hout & Hreads).
  destruct (strategy_shape USE_POLARS h (first :: later) out)
    as (head & loop & Heq & (_ & Hloop & _) & _).
  destruct (opening_plain USE_POLARS (length (first :: later)) out) as [Hor _].
  rewrite (main_run USE_POLARS h names out Hl Hne Hok). cbv zeta.
  rewrite Hsorted. fold (strategy USE_POLARS h (first :: later)).
  rewrite Hres, Hout. cbn [result output trace exit_status].
  repeat split.
  - rewrite !reads_app, Hor, Hreads. simpl. now rewrite app_nil_r.
  - rewrite Heq in Hres |- *. cbn [result trace] in *.
    destruct (result loop) as [t|e|s]; try discriminate.
    destruct Hloop as (_ & Ht & _). cbn [Nat.add] in Ht. subst t.
    cbn [summary_of].
    exists (opening USE_POLARS (length (first :: later)) out ++ head ++ trace loop
            ++ [Print MsgRule; Print (MsgSuccess (length (first :: later)))]).
    now rewrite <- !app_assoc.
Qed.

(** X11 on a directory with two sample files and a note, under the
    Pandas strategy, the overwrite confirmed. *)
Lemma successful_run_witness :
  let h := Sample.host ["c.csv"; "notes.txt"; "a.csv"] (Some "y"%string) in
  let r := main false h (Some "old"%string) in
  let text := terminated ["id,val"; "1,x"; "2,y"; "3,z"]%string in
  result r = Normal tt
  /\ exit_status (result r) = 0
  /\ output r = Some text
  /\ reads (trace r) = ["a.csv"; "c.csv"]%string
  /\ exists pre,
       trace r = pre ++ [Print (MsgTotalRows 3); Print MsgOutput;
                         Print (MsgOutputSize 19)].
Proof.
  apply (successful_run false
           (Sample.host ["c.csv"; "notes.txt"; "a.csv"] (Some "y"%string))
           ["c.csv"; "notes.txt"; "a.csv"]%string "a.csv" ["c.csv"%string]
           (Some "old"%string)).
  - reflexivity.
  - reflexivity.
  - repeat constructor; eexists; reflexivity.
  - exact I.
  - right. exists "y"%string. split; reflexivity.
Defined.

(** X12.  However a run of [main] goes, its exit status is 0 or 1.
    When it runs to its end an output file exists, so the size report
    of lines 167 and 168 never fails; the only exception that ever
    leaves [main] is the one of the overwrite question at the end of
    the input, and then the output file is as it was. *)
Theorem main_outcomes (USE_POLARS : bool) (h : Host) (out : option string) :
  let r := main USE_POLARS h out in
  exit_status (result r) <= 1
  /\ match result r with
     | Normal _ => exists text, output r = Some text
     | Exited status => status <= 1
     | Raised e =>
         e = Exception "EOF when reading a line" /\ stdin h = None
         /\ output r = out /\ trace r = [Ask]
     end.
Proof.
  cbv zeta.
  destruct (main_cases USE_POLARS h out)
    as [Hl Heq | names Hl Hs Heq | names text Hl Hne Ho Hi Heq
        | names text line Hl Hne Ho Hi Hy Heq | names Hl Hne Hok];
    try (rewrite Heq; cbn [result output trace exit_status]; split; auto; lia).
  rewrite (main_run USE_POLARS h names out Hl Hne Hok). cbv zeta.
  destruct (sorted (glob_csv names)) as [|first later] eqn:Hs; [contradiction|].
  fold (strategy USE_POLARS h (first :: later)).
  pose proof (strategy_normal_output USE_POLARS h first later out) as Hno.
  destruct (strategy_shape USE_POLARS h (first :: later) out)
    as (head & loop & Heq & (_ & Hres & _) & _).
  destruct (result (strategy USE_POLARS h (first :: later) out))
    as [[]|e|s] eqn:Hr.
  - destruct (Hno eq_refl) as [text Ht]. rewrite Ht.
    cbn [result output exit_status]. split; [lia | now exists text].
  - cbn [result exit_status]. split; lia.
  - rewrite Heq in Hr. cbn [result] in Hr.
    destruct (result loop); [discriminate | discriminate | contradiction].
Qed.

(** X13.  When the output file exists, the input files are found and
    the console is at its end, the overwrite question raises: the run
    ends with status 1, nothing is printed after the question, no file
    is read and the output file is as it was. *)
Theorem prompt_at_end_of_input (USE_POLARS : bool) (h : Host)
    (names : list string) (text : string) :
  listing h = Some names ->
  glob_csv names <> [] ->
  stdin h = None ->
  let r := main USE_POLARS h (Some text) in
  result r = Raised (Exception "EOF when reading a line")
  /\ exit_status (result r) = 1
  /\ output r = Some text
  /\ trace r = [Ask].
Proof.
  intros Hl Hg Hi. cbv zeta.
  assert (Hne : sorted (glob_csv names) <> []).
  { intros E. apply (proj1 (sorted_nil_iff _)) in E. contradiction. }
  rewrite (main_eof_run USE_POLARS h names text Hl Hne Hi). repeat split.
Qed.

(** X13 on two sample files with nothing to read on the console. *)
Lemma prompt_at_end_of_input_witness :
  let r := main true (Sample.host ["a.csv"; "c.csv"] None) (Some "old"%string) in
  result r = Raised (Exception "EOF when reading a line")
  /\ exit_status (result r) = 1
  /\ output r = Some "old"%string
  /\ trace r = [Ask].
Proof.
  apply (prompt_at_end_of_input true (Sample.host ["a.csv"; "c.csv"] None)
           ["a.csv"; "c.csv"]%string "old").
  - reflexivity.
  - vm_compute. discriminate.
  - reflexivity.
Defined.

(** X14.  The overwrite question is asked once when the output file
    exists and input files are found, and never otherwise; the
    strategies ask nothing. *)
Theorem asked_once (USE_POLARS : bool) (h : Host) (out : option string) :
  length (filter is_ask (trace (main USE_POLARS h out)))
  = match out, listing h with
    | Some _, Some names =>
        match sorted (glob_csv names) with
        | [] => 0
        | _ :: _ => 1
        end
    | _, _ => 0
    end.
Proof.
  destruct (main_cases USE_POLARS h out)
    as [Hl Heq | names Hl Hs Heq | names text Hl Hne Ho Hi Heq
        | names text line Hl Hne Ho Hi Hy Heq | names Hl Hne Hok].
  - rewrite Heq, Hl. now destruct out.
  - rewrite Heq, Hl, Hs. now destruct out.
  - rewrite Heq, Hl, Ho.
    destruct (sorted (glob_csv names)); [contradiction | reflexivity].
  - rewrite Heq, Hl, Ho.
    destruct (sorted (glob_csv names)); [contradiction | reflexivity].
  - rewrite (main_run USE_POLARS h names out Hl Hne Hok), Hl. cbv zeta.
    destruct (sorted (glob_csv names)) as [|first later] eqn:Hs; [contradiction|].
    fold (strategy USE_POLARS h (first :: later)).
    destruct (strategy_shape USE_POLARS h (first :: later) out)
      as (head & loop & Heq & (_ & _ & _ & Hq) & _ & _ & _ & Hh).
    destruct (summary_of_quiet (length (first :: later)) (result loop))
      as (_ & _ & _ & Hsq).
    assert (Hc : filter is_ask (trace (strategy USE_POLARS h (first :: later) out)) = []).
    { rewrite Heq. cbn [trace]. now rewrite !filter_app, Hh, Hq, Hsq. }
    destruct (result (strategy USE_POLARS h (first :: later) out)) as [[]|e|s];
      [destruct (output (strategy USE_POLARS h (first :: later) out))|..];
      cbn [trace]; unfold opening; rewrite !filter_app, Hc;
      destruct out; reflexivity.
Qed.

(** X15.  The engine is chosen before [main] runs.  With Polars
    installed the script is [main] under the Polars strategy, whether
    Pandas is installed or not, and prints no warning.  With Pandas
    only, it prints the two lines of warning and then is [main] under
    the Pandas strategy.  With neither it prints the warning and the
    error and exits with status 1: [main] does not run, nothing is
    asked or read, and the output file is as it was. *)
Theorem script_engine_choice (pandas_installed : bool) (h : Host)
    (out : option string) :
  script true pandas_installed h out = main true h out
  /\ script false true h out
     = mkRun (result (main false h out)) (output (main false h out))
         ([Print MsgPolarsNotFound; Print MsgFallingBack] ++ trace (main false h out))
  /\ script false false h out
     = mkRun (Exited 1) out
         [Print MsgPolarsNotFound; Print MsgFallingBack; Print MsgNoEngine].
Proof.
  unfold script, import_engine, bind, print, emit, ret, sys_exit.
  repeat split.
  - now destruct (main true h out) as [[u|e|s] o tr].
  - now destruct (main false h out) as [[u|e|s] o tr].
Qed.

(** X16.  On an empty list both strategies report success with no
    file and no row, but the Polars strategy has created an empty output
    file, or emptied the one there was, while the Pandas strategy has
    not touched the output file: it creates none. *)
Theorem strategies_on_empty_list (h : Host) (out : option string) :
  combine_csv_polars h [] out
  = mkRun (Normal tt) (Some EmptyString)
      [Print (MsgCombining 0 Polars); Print MsgOutputFile; Print MsgRule; OpenW;
       Print MsgRule; Print (MsgSuccess 0); Print (MsgTotalRows 0); Print MsgOutput]
  /\ combine_csv_pandas h [] out
     = mkRun (Normal tt) out
         [Print (MsgCombining 0 Pandas); Print MsgOutputFile; Print MsgRule;
          Print MsgRule; Print (MsgSuccess 0); Print (MsgTotalRows 0); Print MsgOutput].
Proof. split; reflexivity. Qed.

(** A strategy whose first file is read and written (under Polars,
    any strategy run) does not depend on the output file it finds. *)
Lemma strategy_ignores_output (USE_POLARS : bool) (h : Host) (first : string)
    (later : list string) (out : option string) :
  (if USE_POLARS then True else sound h first) ->
  strategy USE_POLARS h (first :: later) out
  = strategy USE_POLARS h (first :: later) None.
Proof.
  unfold strategy. destruct USE_POLARS; intros Hfirst.
  - now rewrite !combine_csv_polars_run.
  - pose proof (sound_table h first Hfirst) as Hr. destruct Hfirst as [_ Hw].
    rewrite !combine_csv_pandas_run. cbv zeta. cbn [pandas_loop].
    rewrite (bind_normal _ _ _ _ _ _
               (pandas_step_sound h _ 1 first _ 0 true out Hr Hw)).
    rewrite (bind_normal _ _ _ _ _ _
               (pandas_step_sound h _ 1 first _ 0 true None Hr Hw)).
    reflexivity.
Qed.

(** X17.  A confirmed overwrite is a fresh run: when the overwrite is
    confirmed (and, under the Pandas strategy, the first file is read
    and written), [main] ends the same way and leaves the same output
    file as it does when no output file exists, and reads the same
    files; the two runs differ by the question and the blank line after
    it only. *)
Theorem confirmed_overwrite_is_fresh_run (USE_POLARS : bool) (h : Host)
    (names : list string) (first : string) (later : list string)
    (old line : string) :
  listing h = Some names ->
  sorted (glob_csv names) = first :: later ->
  stdin h = Some line ->
  lower line = "y"%string ->
  (if USE_POLARS then True else sound h first) ->
  let again := main USE_POLARS h (Some old) in
  let fresh := main USE_POLARS h None in
  result again = result fresh
  /\ output again = output fresh
  /\ trace again = Ask :: Print MsgBlank :: trace fresh.
Proof.
  intros Hl Hsorted Hi Hy Hfirst. cbv zeta.
  assert (Hne : sorted (glob_csv names) <> []) by now rewrite Hsorted.
  rewrite (main_run USE_POLARS h names (Some old) Hl Hne
             (or_intror (ex_intro _ line (conj Hi Hy)))).
  rewrite (main_run USE_POLARS h names None Hl Hne (or_introl eq_refl)).
  cbv zeta. rewrite Hsorted. fold (strategy USE_POLARS h (first :: later)).
  rewrite (strategy_ignores_output USE_POLARS h first later (Some old) Hfirst).
  destruct (strategy USE_POLARS h (first :: later) None) as [[[]|e|s] [text|] tr];
    cbn [result output trace]; repeat split.
Qed.

(** X17 on two sample files under the Pandas strategy. *)
Lemma confirmed_overwrite_is_fresh_run_witness :
  let h := Sample.host ["a.csv"; "c.csv"] (Some "Y"%string) in
  let again := main false h (Some "old"%string) in
  let fresh := main false h None in
  result again = result fresh
  /\ output again = output fresh
  /\ trace again = Ask :: Print MsgBlank :: trace fresh.
Proof.
  apply (confirmed_overwrite_is_fresh_run false
           (Sample.host ["a.csv"; "c.csv"] (Some "Y"%string))
           ["a.csv"; "c.csv"]%string "a.csv" ["c.csv"%string] "old" "Y").
  - reflexivity.
  - reflexivity.
  - reflexivity.
  - reflexivity.
  - split; [exists Sample.a_csv|]; reflexivity.
Defined.
